(** * piglot: driver, solver registry and surrogate construction

    A shallow embedding of three source files of piglot:
    - [piglot/solver/__init__.py]  (the solver registry and [read_solver]),
    - [piglot/utils/surrogate.py]  (the Gaussian-process builder [get_model]),
    - [piglot/bin/piglot.py]       (the command-line driver [main]).

    Python dictionaries are finite maps, exceptions are values of an error
    monad, and the objects the three files only call into (solver backends,
    the YAML helpers, the optimiser, botorch) are parameters of the
    corresponding sections. *)

From stdpp Require Import base option list strings gmap fin_maps pretty.
From Stdlib Require Import ZArith Lia.

Set Warnings "-register-all,-clear-no-such-hyp".
Local Open Scope string_scope.

(** ** Python values and exceptions *)

Module Py.

(** The values a YAML configuration holds.  A dictionary is a finite map
    from its (string) keys; floats do not occur in what follows. *)
Inductive value : Type :=
  | VNone
  | VBool (b : bool)
  | VInt (z : Z)
  | VStr (s : string)
  | VList (l : list value)
  | VDict (d : gmap string value).

(** A configuration dictionary, [Dict[str, Any]]. *)
Abbreviation dict := (gmap string value).

(** [hash(v)] is defined for scalars; lists and dictionaries are
    unhashable and cannot be looked up in a dictionary. *)
Definition hashable (v : value) : bool :=
  match v with
  | VList _ | VDict _ => false
  | _ => true
  end.

(** [type(v).__name__]. *)
Definition type_name (v : value) : string :=
  match v with
  | VNone => "NoneType"
  | VBool _ => "bool"
  | VInt _ => "int"
  | VStr _ => "str"
  | VList _ => "list"
  | VDict _ => "dict"
  end.

(** [str(v)], as an f-string field formats it.  Only scalars are ever
    formatted below: a list or dictionary is refused before, and stands
    here as a placeholder. *)
Definition py_str (v : value) : string :=
  match v with
  | VNone => "None"
  | VBool true => "True"
  | VBool false => "False"
  | VInt z => pretty z
  | VStr s => s
  | VList _ => "[...]"
  | VDict _ => "{...}"
  end.

(** [bool(v)]: the truth value used by [not v] and [if v]. *)
Definition truthy (v : value) : bool :=
  match v with
  | VNone => false
  | VBool b => b
  | VInt z => negb (Z.eqb z 0)
  | VStr s => negb (String.eqb s "")
  | VList l => match l with [] => false | _ => true end
  | VDict d => negb (bool_decide (d = ∅))
  end.

(** An exception: the name of its class and its message. *)
Record exn : Type := Raise { exc_class : string; exc_msg : string }.

(** The base classes of the built-in exception classes raised below
    (the method resolution order, most specific first). *)
Definition mro (cls : string) : list string :=
  let base := ["Exception"; "BaseException"] in
  if String.eqb cls "KeyError" then cls :: "LookupError" :: base
  else if String.eqb cls "IndexError" then cls :: "LookupError" :: base
  else if String.eqb cls "FileExistsError" then cls :: "OSError" :: base
  else if String.eqb cls "NotADirectoryError" then cls :: "OSError" :: base
  else if String.eqb cls "BaseException" then [cls]
  else if String.eqb cls "Exception" then base
  else cls :: base.

(** [isinstance(e, cls)]. *)
Definition isinstance (e : exn) (cls : string) : bool :=
  bool_decide (cls ∈ mro (exc_class e)).

(** [sub in s] on strings. *)
Definition contains (sub s : string) : Prop :=
  ∃ pre post, s = pre ++ sub ++ post.

(** The outcome of a call: an exception or a value. *)
Definition result (A : Type) : Type := exn + A.

Definition ValueError (msg : string) : exn := Raise "ValueError" msg.
Definition TypeError (msg : string) : exn := Raise "TypeError" msg.
Definition KeyError (key : string) : exn := Raise "KeyError" ("'" ++ key ++ "'").
Definition IndexError (msg : string) : exn := Raise "IndexError" msg.

(** Code that changes a state [S] and may raise: a call maps the state
    before to the state after and an outcome.  An exception stops the
    rest of the sequence and keeps the state reached. *)
Definition M (S A : Type) : Type := S → S * result A.

Definition throw {S A} (e : exn) : M S A := λ s, (s, inl e).

#[global] Instance M_ret {S} : MRet (M S) := λ A a s, (s, inr a).

#[global] Instance M_bind {S} : MBind (M S) := λ A B f m s,
  match m s with
  | (s', inl e) => (s', inl e)
  | (s', inr a) => f a s'
  end.

(** A computation that cannot touch the state. *)
Definition pure_result {S A} (r : result A) : M S A := λ s, (s, r).

End Py.

(** ** The solver registry: [piglot/solver/__init__.py] *)

Module Solver.
Import Py.

Section Registry.

(** [ParameterSet] and [Solver] are classes of other modules. *)
Context {ParameterSet Solver : Type}.

(** A solver class, as far as [read_solver] uses it: its class method
    [read(config, parameters, output_dir)].  The method receives the
    caller's dictionary object, so it returns the dictionary as it leaves
    it together with the solver it built or the exception it raised. *)
Record solver_class : Type :=
  { read : dict → ParameterSet → string → dict * result Solver }.

(** The backend of [piglot.solver.links.solver]. *)
Variable LinksSolver : solver_class.

Definition AVAILABLE_SOLVERS : gmap string solver_class :=
  {[ "links" := LinksSolver ]}.

(** [name in AVAILABLE_SOLVERS] and [AVAILABLE_SOLVERS[name]] for a
    hashable [name]: the keys are strings, and no other value equals one. *)
Definition registered (name : value) : option solver_class :=
  match name with
  | VStr s => AVAILABLE_SOLVERS !! s
  | _ => None
  end.

(** One invocation of a backend's [read]. *)
Record read_call : Type :=
  ReadCall { rc_name : value;
             rc_config : dict;
             rc_parameters : ParameterSet;
             rc_output_dir : string }.

(** What a call of [read_solver] amounts to: the caller's dictionary
    afterwards, the backend factories it invoked, and what it returned
    or raised. *)
Record outcome : Type :=
  Outcome { config_after : dict;
            reads : list read_call;
            returned : result Solver }.

Definition read_solver (config : dict) (parameters : ParameterSet)
    (output_dir : string) : outcome :=
  match config !! "name" with
  | None =>
      Outcome config [] (inl (ValueError "Missing name for solver."))
  | Some name =>
      (* name = config.pop('name') *)
      let config := delete "name" config in
      if negb (hashable name) then
        Outcome config []
          (inl (TypeError ("unhashable type: '" ++ type_name name ++ "'")))
      else
        match registered name with
        | None =>
            Outcome config []
              (inl (ValueError ("Unknown solver '" ++ py_str name ++ "'.")))
        | Some cls =>
            let r := read cls config parameters output_dir in
            Outcome r.1 [ReadCall name config parameters output_dir] r.2
        end
  end.

End Registry.

(** A registry instance to run [read_solver] on: the parameter set is a
    list of names, and the stand-in for the links backend returns the
    output directory it was given and leaves the dictionary alone. *)
Definition sample_links : @solver_class (list string) string :=
  {| read := λ config _ output_dir, (config, inr output_dir) |}.

(** Configurations to run [read_solver] on. *)
Definition no_name_config : dict := {[ "input" := VStr "case.dat" ]}.

Definition nonexistent_config : dict :=
  {[ "name" := VStr "nonexistent"; "input" := VStr "case.dat" ]}.

Definition links_config : dict :=
  {[ "name" := VStr "links"; "input" := VStr "case.dat" ]}.

Definition list_name_config : dict :=
  {[ "name" := VList [VStr "links"]; "input" := VStr "case.dat" ]}.

End Solver.

(** ** The surrogate builder: [piglot/utils/surrogate.py] *)

Module Surrogate.
Import Py.

(** A failing step ends a chain of fallible steps. *)
#[export] Instance result_bind : MBind result := λ A B f r,
  match r with
  | inl e => inl e
  | inr a => f a
  end.

Section GetModel.

(** The entries of a numpy array, and the float64 scalars with their
    [0.0]. *)
Context {A F : Type} (zero : F).

(** A tensor (torch): its shape and its entries in row-major order. *)
Record tensor : Type := Tensor { shape : list nat; data : list F }.

(** An array (numpy): the name of its dtype, its shape and its entries
    in row-major order.  Its memory layout is not modelled. *)
Record ndarray : Type :=
  NDArray { np_dtype : string; np_shape : list nat; np_data : list A }.

(** torch.  [to_float64] converts one entry to float64, rounding where
    it must; [refused] is the exception [torch.tensor] raises on an array
    it does not take over, such as the [TypeError] for an array of
    strings or objects. *)
Variable to_float64 : A → F.
Variable refused : ndarray → option exn.

(** [torch.tensor(a, dtype=torch.float64)]: a tensor of the same shape
    with the converted entries, unless the array is refused. *)
Definition torch_tensor (a : ndarray) : result tensor :=
  match refused a with
  | Some e => inl e
  | None => inr (Tensor (np_shape a) (to_float64 <$> np_data a))
  end.

(** [t.unsqueeze(dim)]: a new axis of size one at position [dim], which
    may be at most the number of axes. *)
Definition unsqueeze (dim : nat) (t : tensor) : result tensor :=
  if decide (dim ≤ length (shape t))%nat then
    inr (Tensor (take dim (shape t) ++ 1 :: drop dim (shape t)) (data t))
  else
    inl (IndexError
           ("Dimension out of range (expected to be in range of [-"
              ++ pretty (S (length (shape t))) ++ ", "
              ++ pretty (length (shape t)) ++ "], but got "
              ++ pretty dim ++ ")")).

(** [torch.zeros_like(t)]. *)
Definition zeros_like (t : tensor) : tensor :=
  Tensor (shape t) (replicate (length (data t)) zero).

(** botorch's transforms, as [get_model] configures them. *)
Inductive input_transform_t : Type := Normalize (d : nat).
Inductive outcome_transform_t : Type := Standardize (m : nat).

(** The two model classes and the arguments they are built from. *)
Inductive gp_model : Type :=
  | SingleTaskGP (train_X train_Y : tensor)
      (input_transform : input_transform_t)
      (outcome_transform : outcome_transform_t)
  | FixedNoiseGP (train_X train_Y train_Yvar : tensor)
      (input_transform : input_transform_t)
      (outcome_transform : outcome_transform_t).

Definition train_X (gp : gp_model) : tensor :=
  match gp with SingleTaskGP x _ _ _ | FixedNoiseGP x _ _ _ _ => x end.

Definition train_Y (gp : gp_model) : tensor :=
  match gp with SingleTaskGP _ y _ _ | FixedNoiseGP _ y _ _ _ => y end.

(** The observation noise a model is given; a [SingleTaskGP] has none
    and infers it. *)
Definition train_Yvar (gp : gp_model) : option tensor :=
  match gp with
  | SingleTaskGP _ _ _ _ => None
  | FixedNoiseGP _ _ v _ _ => Some v
  end.

Definition input_transform (gp : gp_model) : input_transform_t :=
  match gp with SingleTaskGP _ _ i _ | FixedNoiseGP _ _ _ i _ => i end.

Definition outcome_transform (gp : gp_model) : outcome_transform_t :=
  match gp with SingleTaskGP _ _ _ o | FixedNoiseGP _ _ _ _ o => o end.

Definition noise_inferring (gp : gp_model) : bool :=
  match gp with SingleTaskGP _ _ _ _ => true | FixedNoiseGP _ _ _ _ _ => false end.

(** The number of input features a transform is set up for, and the
    number of feature columns of a tensor (its last axis). *)
Definition transform_dim (i : input_transform_t) : nat :=
  match i with Normalize d => d end.

Definition feature_dim (t : tensor) : option nat := last (shape t).

(** What the constructors of botorch are known to check: the inputs have
    as many feature columns as the input transform is set up for, and a
    given noise has the shape of the outcomes. *)
Definition well_shaped (gp : gp_model) : bool :=
  bool_decide (feature_dim (train_X gp) = Some (transform_dim (input_transform gp)))
  && match train_Yvar gp with
     | Some yvar => bool_decide (shape yvar = shape (train_Y gp))
     | None => true
     end.

(** botorch and gpytorch.  [World] is the state of the library (its
    random generator, for one), [Hyper] the trainable hyperparameters of a
    model.  Building a model validates the arguments and yields the
    initial hyperparameters; [fit_gpytorch_mll] trains them in place. *)
Context {World Hyper : Type}.
Variable construct : gp_model → M World Hyper.
Variable fit_gpytorch_mll : gp_model → Hyper → M World Hyper.

(** A constructor that builds well-shaped models only. *)
Definition checks_shapes : Prop :=
  ∀ spec w w' h, construct spec w = (w', inr h) → well_shaped spec = true.

(** A model object: what it was built from and its hyperparameters. *)
Record model : Type := Model { gp : gp_model; hyper : Hyper }.

Definition get_model (x_data y_data : ndarray) (var_data : option ndarray)
    (noisy : bool) : M World model :=
  x ← pure_result (torch_tensor x_data);
  y ← pure_result (torch_tensor y_data ≫= unsqueeze 1);
  spec ←
    (if noisy then
       mret (SingleTaskGP x y (Normalize 1) (Standardize 1))
     else
       match var_data with
       | None =>
           mret (FixedNoiseGP x y (zeros_like y) (Normalize 1) (Standardize 1))
       | Some var_data =>
           yvar ← pure_result (torch_tensor var_data ≫= unsqueeze 1);
           mret (FixedNoiseGP x y yvar (Normalize 1) (Standardize 1))
       end);
  h ← construct spec;
  (* mll = ExactMarginalLogLikelihood(gp.likelihood, gp); fit_gpytorch_mll(mll) *)
  h' ← fit_gpytorch_mll spec h;
  mret (Model spec h').

(** The model class and arguments [get_model] settles on (lines 36 to
    61), before botorch is asked to build anything. *)
Definition requested (x_data y_data : ndarray) (var_data : option ndarray)
    (noisy : bool) : result gp_model :=
  x ← torch_tensor x_data;
  y ← torch_tensor y_data ≫= unsqueeze 1;
  if noisy then inr (SingleTaskGP x y (Normalize 1) (Standardize 1))
  else
    match var_data with
    | None => inr (FixedNoiseGP x y (zeros_like y) (Normalize 1) (Standardize 1))
    | Some var_data =>
        yvar ← torch_tensor var_data ≫= unsqueeze 1;
        inr (FixedNoiseGP x y yvar (Normalize 1) (Standardize 1))
    end.

End GetModel.

(** Stand-ins for torch and botorch, over integer entries.

    The float64 scalars are the integers a float64 holds exactly:
    [sample_float64] rounds an integer to 53 significant bits, ties to
    even.  [sample_refused] takes over the numeric dtypes only. *)
Definition sample_float64 (z : Z) : Z :=
  let bits := (Z.log2 (Z.abs z) + 1)%Z in
  if (bits <=? 53)%Z then z
  else
    let k := (bits - 53)%Z in
    let q := Z.shiftr (Z.abs z) k in
    let r := Z.land (Z.abs z) (Z.ones k) in
    let half := Z.shiftl 1 (k - 1) in
    let q' := if (half <? r)%Z || ((r =? half)%Z && Z.odd q) then (q + 1)%Z else q in
    (Z.sgn z * Z.shiftl q' k)%Z.

Definition sample_refused (a : @ndarray Z) : option exn :=
  if bool_decide (np_dtype a ∈ ["float64"; "float32"; "float16"; "int64"; "int32";
                                "int16"; "int8"; "uint8"; "bool"])
  then None
  else Some (TypeError ("can't convert np.ndarray of type numpy." ++ np_dtype a)).

(** The state of the library stand-in counts the calls of
    [fit_gpytorch_mll]; the hyperparameters are a number.
    [sample_construct] builds a model when it is well shaped and its
    inputs and outcomes have the same number of axes; [steady_fit]
    always succeeds; [flaky_fit] fails on the first call and succeeds from
    the second on. *)
Definition sample_construct : @gp_model Z → M nat nat := λ spec,
  if well_shaped spec
     && bool_decide (length (shape (train_X spec)) = length (shape (train_Y spec)))
  then mret 0
  else throw (Raise "BotorchTensorDimensionError" "Wrong input dimension").

Definition steady_fit : @gp_model Z → nat → M nat nat :=
  λ _ h n, (S n, inr (S h)).

Definition flaky_fit : @gp_model Z → nat → M nat nat :=
  λ _ h n,
    (S n, match n with
          | 0 => inl (Raise "NotPSDError" "Matrix not positive definite")
          | _ => inr (S h)
          end).

(** A training set: three points with one feature, and their observation
    variances. *)
Definition x_one : @ndarray Z := NDArray "float64" [3; 1] [0; 5; 10]%Z.
Definition y_one : @ndarray Z := NDArray "float64" [3] [10; 0; 10]%Z.
Definition var_one : @ndarray Z := NDArray "float64" [3] [1; 2; 1]%Z.

(** Two variances for the three points of [y_one]. *)
Definition var_short : @ndarray Z := NDArray "float64" [2] [1; 2]%Z.

(** A single outcome given as a scalar, without an axis; outcomes given
    as strings; an integer outcome that float64 cannot hold. *)
Definition y_scalar : @ndarray Z := NDArray "float64" [] [3]%Z.
Definition y_strings : @ndarray Z := NDArray "str_" [3] [10; 0; 10]%Z.
Definition y_large : @ndarray Z :=
  NDArray "int64" [3] [9007199254740993; 0; 10]%Z.

(** The models [get_model] returns for the three points with
    [steady_fit]: without variances, with variances, and inferring the
    noise. *)
Definition fitted_one : @model Z nat :=
  Model (FixedNoiseGP (Tensor [3; 1] [0; 5; 10]%Z) (Tensor [3; 1] [10; 0; 10]%Z)
           (Tensor [3; 1] [0; 0; 0]%Z) (Normalize 1) (Standardize 1)) 1.

Definition fitted_one_var : @model Z nat :=
  Model (FixedNoiseGP (Tensor [3; 1] [0; 5; 10]%Z) (Tensor [3; 1] [10; 0; 10]%Z)
           (Tensor [3; 1] [1; 2; 1]%Z) (Normalize 1) (Standardize 1)) 1.

Definition fitted_one_noisy : @model Z nat :=
  Model (SingleTaskGP (Tensor [3; 1] [0; 5; 10]%Z) (Tensor [3; 1] [10; 0; 10]%Z)
           (Normalize 1) (Standardize 1)) 1.

End Surrogate.

(** ** The driver: [piglot/bin/piglot.py] *)

Module Driver.
Import Py.

(** *** The file system *)

(** A path is the list of its components below the root; the root is the
    empty list.  Symbolic links and permissions are not modelled. *)
Definition path : Type := list string.

Inductive node : Type :=
  | Dir
  | File (content : string).

Abbreviation filesystem := (gmap path node).

(** The root always exists and is a directory. *)
Definition node_at (fs : filesystem) (p : path) : option node :=
  match p with
  | [] => Some Dir
  | _ => fs !! p
  end.

(** [os.path.isdir(p)]. *)
Definition isdir (fs : filesystem) (p : path) : bool :=
  match node_at fs p with
  | Some Dir => true
  | _ => false
  end.

(** The entries that are neither [p] nor below it. *)
Definition without_tree (p : path) (fs : filesystem) : filesystem :=
  filter (λ e, ¬ p `prefix_of` e.1) fs.

(** The non-empty prefixes of a path, shortest first: its ancestors below
    the root and the path itself. *)
Definition prefixes (p : path) : list path :=
  (λ n, take n p) <$> seq 1 (length p).

Definition is_file (o : option node) : bool :=
  match o with
  | Some (File _) => true
  | _ => false
  end.

(** Creates the directory at [q] unless something is there. *)
Definition mkdir_missing (q : path) (fs : filesystem) : filesystem :=
  match fs !! q with
  | None => <[q := Dir]> fs
  | Some _ => fs
  end.

(** [p] is a directory of [fs], below directories up to the root. *)
Definition existing_directory (fs : filesystem) (p : path) : Prop :=
  Forall (λ q, fs !! q = Some Dir) (prefixes p).

(** [os.path.dirname]. *)
Definition parent (p : path) : path := removelast p.

(** The pieces of a path string between its separators. *)
Fixpoint split_path (s piece : string) : list string :=
  match s with
  | EmptyString => [piece]
  | String c rest =>
      if String.eqb (String c "") "/" then piece :: split_path rest ""
      else split_path rest (piece ++ String c "")
  end.

(** The components of a path string: its non-empty pieces. *)
Definition components (s : string) : list string :=
  List.filter (λ x, negb (String.eqb x "")) (split_path s "").

Definition is_dots (x : string) : bool := String.eqb x "." || String.eqb x "..".

(** [os.rmdir(s)] on a directory that has just been emptied fails when
    the last component of [s] is [.] or [..]: a directory cannot be
    removed under these names.  For [..] the error depends on whether
    the string went through a name that is gone by then. *)
Definition rmdir_error (s : string) : option exn :=
  match last (components s) with
  | Some x =>
      if String.eqb x "." then Some (Raise "OSError" "Invalid argument")
      else if String.eqb x ".." then
        if forallb is_dots (components s)
        then Some (Raise "OSError" "Directory not empty")
        else Some (Raise "FileNotFoundError" "No such file or directory")
      else None
  | None => None
  end.

(** The directory at [p] without its contents; the root has no entry of
    its own. *)
Definition emptied (p : path) (fs : filesystem) : filesystem :=
  match p with
  | [] => without_tree p fs
  | _ => <[p := Dir]> (without_tree p fs)
  end.

(** *** The collaborators of [main] *)

(** What [main] calls into.  [X] is the state of everything outside
    [main] (the objects of the other modules, the process); a call may
    read and change it and the file system.  A callee that receives a
    dictionary object of the configuration may change it in place, so it
    returns the object as it leaves it. *)
Definition Ext (X A : Type) : Type := M (X * filesystem) A.

Record environment : Type :=
  { X : Type;
    Parameters : Type;
    Objective : Type;
    Optimiser : Type;
    StopCriteria : Type;
    History : Type;
    RawVector : Type;
    UnitVector : Type;
    Loss : Type;
    (** the path a string names, or the error [os.makedirs] raises on it *)
    resolve : string → result path;
    (** [yaml.safe_dump]: the text written and the exception that stops it *)
    safe_dump : dict → string * option exn;
    (** [parse_args().config] *)
    parse_args : Ext X string;
    parse_config_file : string → Ext X dict;
    parse_parameters : dict → Ext X (dict * Parameters);
    read_objective : value → Parameters → string → Ext X (value * Objective);
    read_optimiser : value → Objective → Ext X (value * Optimiser);
    parse_stop_criteria : dict → Ext X (dict * StopCriteria);
    (** [optimiser.optimise(n_iter, parameters, output_dir, verbose, stop_criteria)] *)
    optimise : Optimiser → value → Parameters → string → bool → StopCriteria →
               Ext X (History * RawVector);
    (** [parameters.normalise(values)] *)
    normalise : Parameters → RawVector → Ext X UnitVector;
    (** [objective(values)] *)
    call_objective : Objective → UnitVector → Ext X Loss }.

Section Main.

Context (env : environment).

(** What [main] does, in order. *)
Inductive event : Type :=
  | EvParseArgs
  | EvParseConfigFile (file : string)
  | EvRmtree (p : path)
  | EvMakedirs (p : path)
  | EvWrite (p : path) (text : string)
  | EvParseParameters (config : dict)
  | EvReadObjective (config : value) (output_dir : string)
  | EvReadOptimiser (config : value)
  | EvParseStopCriteria (config : dict)
  | EvOptimise (n_iter : value) (output_dir : string) (verbose : bool)
  | EvNormalise (values : RawVector env)
  | EvObjective (values : UnitVector env).

Record machine : Type :=
  Machine { heap : X env; fs : filesystem; trace : list event }.

(** A call of a collaborator, recorded when it is made. *)
Definition call {A} (ev : event) (f : Ext (X env) A) : M machine A := λ m,
  let r := f (heap m, fs m) in
  (Machine r.1.1 r.1.2 (trace m ++ [ev])%list, r.2).

(** [d[key]]. *)
Definition getitem (d : dict) (key : string) : M machine value :=
  match d !! key with
  | Some v => mret v
  | None => throw (KeyError key)
  end.

(** The path a value names for [os.path] and [os]: a string is
    resolved; a number is taken for a file descriptor by [isdir] and
    refused by [makedirs]; anything else is refused by [isdir]. *)
Definition fspath (v : value) : M machine (string * path) :=
  match v with
  | VStr s =>
      match resolve env s with
      | inr p => mret (s, p)
      | inl e => throw e
      end
  | VInt _ | VBool _ =>
      throw (TypeError ("expected str, bytes or os.PathLike object, not "
                          ++ type_name v))
  | _ =>
      throw (TypeError ("stat: path should be string, bytes, os.PathLike or integer, not "
                          ++ type_name v))
  end.

(** [shutil.rmtree(s)], where the string [s] names the path [p]: removes
    what is below the directory, then the directory itself.  When the
    directory cannot be removed, because of the name it is given by or
    because it is the root, it is left empty and the error is raised. *)
Definition rmtree (s : string) (p : path) : M machine unit := λ m,
  let m := Machine (heap m) (fs m) (trace m ++ [EvRmtree p])%list in
  match node_at (fs m) p with
  | Some Dir =>
      match rmdir_error s, p with
      | Some e, _ => (Machine (heap m) (emptied p (fs m)) (trace m), inl e)
      | None, [] =>
          (Machine (heap m) (emptied p (fs m)) (trace m),
           inl (Raise "OSError" "Device or resource busy"))
      | None, _ => (Machine (heap m) (without_tree p (fs m)) (trace m), inr tt)
      end
  | Some (File _) => (m, inl (Raise "NotADirectoryError" "Not a directory"))
  | None => (m, inl (Raise "FileNotFoundError" "No such file or directory"))
  end.

(** [os.makedirs(p, exist_ok=True)]: creates [p] and its missing
    ancestors; an existing directory at [p] is accepted. *)
Definition makedirs (p : path) : M machine unit := λ m,
  let m := Machine (heap m) (fs m) (trace m ++ [EvMakedirs p])%list in
  match node_at (fs m) p with
  | Some Dir => (m, inr tt)
  | Some (File _) => (m, inl (Raise "FileExistsError" "File exists"))
  | None =>
      if existsb (λ q, is_file (fs m !! q)) (prefixes p) then
        (m, inl (Raise "NotADirectoryError" "Not a directory"))
      else
        (Machine (heap m) (foldr mkdir_missing (fs m) (prefixes p)) (trace m),
         inr tt)
  end.

(** [with open(p, 'w', encoding='utf8') as file: safe_dump(config, file)]:
    the file is created or emptied, then receives the text. *)
Definition dump_to (p : path) (config : dict) : M machine unit := λ m,
  match node_at (fs m) p, node_at (fs m) (parent p) with
  | Some Dir, _ => (m, inl (Raise "IsADirectoryError" "Is a directory"))
  | _, Some Dir =>
      let out := safe_dump env config in
      (Machine (heap m) (<[p := File out.1]> (fs m))
         (trace m ++ [EvWrite p out.1])%list,
       match out.2 with
       | Some e => inl e
       | None => inr tt
       end)
  | _, Some (File _) => (m, inl (Raise "NotADirectoryError" "Not a directory"))
  | _, None => (m, inl (Raise "FileNotFoundError" "No such file or directory"))
  end.

(** Lines 43 to 48: "Build output directory with a copy of the
    configuration file".  Returns [output_dir]. *)
Definition build_output_directory (config : dict) : M machine string :=
  output_dir ← getitem config "output";
  sp ← fspath output_dir;
  is_dir ← (λ m, (m, inr (isdir (fs m) sp.2)));
  _ ← (if is_dir : bool then rmtree sp.1 sp.2 else mret tt);
  _ ← makedirs sp.2;
  _ ← dump_to (sp.2 ++ ["config"])%list config;
  mret sp.1.

(** The local variables of [main] once the problem is built. *)
Record problem : Type :=
  Problem { pb_config : dict;
            pb_parameters : Parameters env;
            pb_objective : Objective env;
            pb_optimiser : Optimiser env;
            pb_stop : StopCriteria env }.

(** Lines 50 to 53: "Build piglot problem".  The objective and optimiser
    sections of the configuration are objects inside [config]: what the
    readers do to them shows in [config]. *)
Definition build_problem (config : dict) (output_dir : string) : M machine problem :=
  cp ← call (EvParseParameters config) (parse_parameters env config);
  let config := cp.1 in
  let parameters := cp.2 in
  objective_config ← getitem config "objective";
  co ← call (EvReadObjective objective_config output_dir)
         (read_objective env objective_config parameters output_dir);
  let config := <["objective" := co.1]> config in
  let objective := co.2 in
  optimiser_config ← getitem config "optimiser";
  cz ← call (EvReadOptimiser optimiser_config)
         (read_optimiser env optimiser_config objective);
  let config := <["optimiser" := cz.1]> config in
  let optimiser := cz.2 in
  cs ← call (EvParseStopCriteria config) (parse_stop_criteria env config);
  mret (Problem cs.1 parameters objective optimiser cs.2).

(** Lines 54 to 61: "Run the optimisation".  Returns [best_params]. *)
Definition run_optimisation (pb : problem) (output_dir : string)
    : M machine (RawVector env) :=
  n_iter ← getitem (pb_config pb) "iters";
  quiet ← getitem (pb_config pb) "quiet";
  let verbose := negb (truthy quiet) in
  hb ← call (EvOptimise n_iter output_dir verbose)
         (optimise env (pb_optimiser pb) n_iter (pb_parameters pb) output_dir
            verbose (pb_stop pb));
  mret hb.2.

(** Lines 62 to 64: "Re-run the best case". *)
Definition rerun_best_case (pb : problem) (best_params : RawVector env)
    : M machine unit :=
  match pb_config pb !! "skip_last_run" with
  | None =>
      u ← call (EvNormalise best_params)
            (normalise env (pb_parameters pb) best_params);
      _ ← call (EvObjective u) (call_objective env (pb_objective pb) u);
      mret tt
  | Some _ => mret tt
  end.

(** Lines 40 and 41: the configuration is read. *)
Definition load_config : M machine dict :=
  file ← call EvParseArgs (parse_args env);
  call (EvParseConfigFile file) (parse_config_file env file).

(** Lines 40 to 48: the configuration is read and the output directory
    built.  Returns [config] and [output_dir]. *)
Definition setup : M machine (dict * string) :=
  config ← load_config;
  output_dir ← build_output_directory config;
  mret (config, output_dir).

(** Lines 50 to 64: the problem is built, optimised and re-run. *)
Definition solve (config : dict) (output_dir : string) : M machine unit :=
  pb ← build_problem config output_dir;
  best_params ← run_optimisation pb output_dir;
  rerun_best_case pb best_params.

Definition main : M machine unit :=
  co ← setup;
  solve co.1 co.2.

(** The events in which the problem is built, optimised or evaluated. *)
Definition uses_problem (ev : event) : bool :=
  match ev with
  | EvParseArgs | EvParseConfigFile _ | EvRmtree _ | EvMakedirs _ | EvWrite _ _ => false
  | _ => true
  end.

(** A computation emits [P] when it only appends to the trace, and only
    events that satisfy [P]. *)
Definition emits {A} (P : event → Prop) (c : M machine A) : Prop :=
  ∀ m, ∃ t, trace (c m).1 = (trace m ++ t)%list ∧ Forall P t.

(** A computation preserves [Q] when every entry of the file system at
    a path that satisfies [Q] is still there, unchanged, afterwards. *)
Definition preserves {A} (Q : path → Prop) (c : M machine A) : Prop :=
  ∀ m q x, Q q → fs m !! q = Some x → fs (c m).1 !! q = Some x.

Definition is_objective_call (ev : event) : bool :=
  match ev with
  | EvObjective _ => true
  | _ => false
  end.

(** The vectors at which [main] itself called the objective. *)
Definition objective_calls (t : list event) : list (UnitVector env) :=
  omap (λ ev, match ev with EvObjective u => Some u | _ => None end) t.

End Main.

(** Following one component of a path string from the path [p]. *)
Definition walk (p : path) (x : string) : path :=
  if String.eqb x "." then p
  else if String.eqb x ".." then removelast p
  else (p ++ [x])%list.

(** The path a string names when the working directory is the root. *)
Definition sample_resolve (s : string) : result path :=
  if String.eqb s "" then inl (Raise "FileNotFoundError" "No such file or directory")
  else inr (foldl walk [] (components s)).

(** An environment to run [main] on.  The state is the list of the
    vectors the objective was evaluated at; paths are taken from the
    root; the configuration file always parses to [config]; the
    optimiser evaluates two points and reports the vector [[5]] as best. *)
Definition sample_env (config : dict) : environment :=
  {| X := list (list Z);
     Parameters := unit;
     Objective := unit;
     Optimiser := unit;
     StopCriteria := unit;
     History := list (list Z);
     RawVector := list Z;
     UnitVector := list Z;
     Loss := Z;
     resolve := sample_resolve;
     safe_dump := λ d, (String.concat "," (map fst (map_to_list d)), None);
     parse_args := mret "config.yaml";
     parse_config_file := λ _, mret config;
     parse_parameters := λ c, mret (c, tt);
     read_objective := λ v _ _, mret (v, tt);
     read_optimiser := λ v _, mret (v, tt);
     parse_stop_criteria := λ c, mret (c, tt);
     optimise := λ _ _ _ _ _ _ st,
       let evals := (st.1 ++ [[1%Z]; [2%Z]])%list in
       ((evals, st.2), inr (evals, [5%Z]));
     normalise := λ _ raw, mret raw;
     call_objective := λ _ u st, (((st.1 ++ [u])%list, st.2), inr 0%Z) |}.

(** A configuration with every key [main] reads, and the same with
    [skip_last_run: false] added. *)
Definition sample_config : dict :=
  {[ "output" := VStr "out";
     "objective" := VDict {[ "name" := VStr "fitting" ]};
     "optimiser" := VStr "botorch";
     "iters" := VInt 2;
     "quiet" := VBool false ]}.

Definition sample_config_no_skip : dict :=
  <["skip_last_run" := VBool false]> sample_config.

(** A file system with an output directory left by an earlier run. *)
Definition used_fs : filesystem :=
  {[ ["out"] := Dir;
     ["out"; "config"] := File "old";
     ["out"; "0"] := Dir;
     ["out"; "0"; "case.out"] := File "1.0";
     ["other"] := File "keep" ]}.

(** Configurations that stop [main] early or send it elsewhere: without
    an [output] key, with an output path that is a file, with an output
    path that does not exist, without [iters], without [objective]. *)
Definition no_output_config : dict := delete "output" sample_config.
Definition file_output_config : dict := <["output" := VStr "other"]> sample_config.
Definition fresh_output_config : dict := <["output" := VStr "new"]> sample_config.
Definition no_iters_config : dict := delete "iters" sample_config.
Definition no_objective_config : dict := delete "objective" sample_config.


(** The machine [main] starts on: nothing recorded yet, no objective
    evaluated, the file system of the earlier run. *)
Definition start (config : dict) : machine (sample_env config) :=
  Machine (sample_env config) [] used_fs [].

End Driver.

(** * Properties *)

(** ** The solver registry *)

Module SolverFacts.
Import Py Solver.

Section Facts.

Context {ParameterSet Solver : Type} (LinksSolver : @solver_class ParameterSet Solver).

Lemma contains_infix (pre sub post : string) : contains sub (pre ++ sub ++ post).
Proof. by exists pre, post. Qed.

(** C6, as the code has it: a configuration without a [name] key makes
    [read_solver] raise [ValueError("Missing name for solver.")]; the
    dictionary is left as it was and no backend's [read] is called. *)
Theorem read_solver_missing_name (config : dict) parameters output_dir :
  config !! "name" = None →
  read_solver LinksSolver config parameters output_dir
  = Outcome config [] (inl (ValueError "Missing name for solver.")).
Proof. intros Hname. unfold read_solver. by rewrite Hname. Qed.

(** C2, as the code has it: a hashable name that is no key of the
    registry makes [read_solver] raise [ValueError] with the message
    [Unknown solver '<name>'.], which contains the name; no backend's
    [read] is called. *)
Theorem read_solver_unknown_name (config : dict) parameters output_dir name :
  config !! "name" = Some name →
  hashable name = true →
  registered LinksSolver name = None →
  let r := read_solver LinksSolver config parameters output_dir in
  returned r = inl (ValueError ("Unknown solver '" ++ py_str name ++ "'."))
  ∧ (∀ e, returned r = inl e →
          exc_class e = "ValueError" ∧ contains (py_str name) (exc_msg e))
  ∧ reads r = [].
Proof.
  intros Hname Hhash Hreg. unfold read_solver.
  rewrite Hname, Hhash, Hreg. simpl. split_and!; [done| |done].
  intros e [= <-]. split; [done|]. apply contains_infix.
Qed.

(** C9: when the dictionary has a [name] key, [read_solver] pops it.
    The popped dictionary lacks [name] and agrees with the caller's on
    every other key.  A registered name hands exactly that dictionary to
    the backend's [read], and the caller's dictionary ends as [read]
    leaves it; every other name raises and leaves the caller's dictionary
    popped. *)
Theorem read_solver_pops_name (config : dict) parameters output_dir name :
  config !! "name" = Some name →
  let popped := delete "name" config in
  let r := read_solver LinksSolver config parameters output_dir in
  popped !! "name" = None
  ∧ (∀ key, key ≠ "name" → popped !! key = config !! key)
  ∧ match registered LinksSolver name with
    | Some cls =>
        hashable name = true
        ∧ reads r = [ReadCall name popped parameters output_dir]
        ∧ config_after r = (read cls popped parameters output_dir).1
        ∧ returned r = (read cls popped parameters output_dir).2
        ∧ ((read cls popped parameters output_dir).1 = popped →
           config_after r !! "name" = None)
    | None =>
        reads r = [] ∧ config_after r = popped ∧ ∃ e, returned r = inl e
    end.
Proof.
  intros Hname popped r. split_and!.
  - apply lookup_delete_eq.
  - intros key Hkey. by apply lookup_delete_ne.
  - subst r popped. unfold read_solver. rewrite Hname.
    destruct name as [| | |s| |]; simpl; try by eauto.
    destruct (AVAILABLE_SOLVERS LinksSolver !! s) as [cls|]; simpl; [|by eauto].
    split_and!; try done. intros Heq. rewrite Heq. apply lookup_delete_eq.
Qed.

End Facts.

(** [read_solver_missing_name] on a configuration with an input file only. *)
Lemma read_solver_missing_name_witness :
  no_name_config !! "name" = None
  ∧ read_solver sample_links no_name_config ["a"] "out"
    = Outcome no_name_config [] (inl (ValueError "Missing name for solver.")).
Proof.
  split; [reflexivity|].
  apply (read_solver_missing_name sample_links no_name_config ["a"] "out").
  reflexivity.
Defined.

(** C6 as stated fails: without a [name] key the exception raised is a
    [ValueError], which is no [ConfigurationError]. *)
Lemma missing_name_not_ConfigurationError :
  returned (read_solver sample_links no_name_config ["a"] "out")
  = inl (Raise "ValueError" "Missing name for solver.")
  ∧ ¬ ∃ e, returned (read_solver sample_links no_name_config ["a"] "out") = inl e
           ∧ isinstance e "ConfigurationError" = true.
Proof.
  assert (Hrun : returned (read_solver sample_links no_name_config ["a"] "out")
                 = inl (Raise "ValueError" "Missing name for solver."))
    by reflexivity.
  split; [exact Hrun|]. rewrite Hrun. intros (e & [= <-] & Hinst).
  vm_compute in Hinst. discriminate.
Qed.

(** [read_solver_unknown_name] on the name ["nonexistent"]. *)
Lemma read_solver_unknown_name_witness :
  nonexistent_config !! "name" = Some (VStr "nonexistent")
  ∧ returned (read_solver sample_links nonexistent_config ["a"] "out")
    = inl (ValueError "Unknown solver 'nonexistent'.")
  ∧ contains "nonexistent" "Unknown solver 'nonexistent'."
  ∧ reads (read_solver sample_links nonexistent_config ["a"] "out") = [].
Proof.
  pose proof (read_solver_unknown_name sample_links nonexistent_config ["a"]
                "out" (VStr "nonexistent") eq_refl eq_refl eq_refl)
    as (Hret & Hexc & Hreads).
  split_and!; [reflexivity|exact Hret| |exact Hreads].
  exact (proj2 (Hexc _ Hret)).
Defined.

(** C2 as stated fails: for the unregistered name ["nonexistent"] the
    exception raised is a [ValueError], which is no
    [ConfigurationError]. *)
Lemma unknown_name_not_ConfigurationError :
  returned (read_solver sample_links nonexistent_config ["a"] "out")
  = inl (Raise "ValueError" "Unknown solver 'nonexistent'.")
  ∧ ¬ ∃ e, returned (read_solver sample_links nonexistent_config ["a"] "out") = inl e
           ∧ isinstance e "ConfigurationError" = true.
Proof.
  assert (Hrun : returned (read_solver sample_links nonexistent_config ["a"] "out")
                 = inl (Raise "ValueError" "Unknown solver 'nonexistent'."))
    by reflexivity.
  split; [exact Hrun|]. rewrite Hrun. intros (e & [= <-] & Hinst).
  vm_compute in Hinst. discriminate.
Qed.

(** [read_solver_pops_name] on the registered name ["links"]. *)
Lemma read_solver_pops_name_witness :
  links_config !! "name" = Some (VStr "links")
  ∧ reads (read_solver sample_links links_config ["a"] "out")
    = [ReadCall (VStr "links") (delete "name" links_config) ["a"] "out"]
  ∧ config_after (read_solver sample_links links_config ["a"] "out") !! "name" = None
  ∧ config_after (read_solver sample_links links_config ["a"] "out") !! "input"
    = Some (VStr "case.dat").
Proof.
  pose proof (read_solver_pops_name sample_links links_config ["a"] "out"
                (VStr "links") eq_refl) as (Hgone & Hrest & Hcall).
  change (registered sample_links (VStr "links")) with (Some sample_links) in Hcall.
  destruct Hcall as (_ & Hreads & Hafter & _ & Hkeep).
  split_and!; [reflexivity|exact Hreads|exact (Hkeep eq_refl)|].
  rewrite Hafter. simpl. rewrite (Hrest "input"); [reflexivity|discriminate].
Defined.

(** *** Further behaviour of [read_solver] *)

Section Dispatch.

Context {ParameterSet Solver : Type} (LinksSolver : @solver_class ParameterSet Solver).

(** A name that is a list or a dictionary cannot be looked up in the
    registry: [read_solver] raises [TypeError] at the membership test,
    after the name has been popped from the caller's dictionary, and
    calls no backend. *)
Theorem read_solver_unhashable_name (config : dict) parameters output_dir name :
  config !! "name" = Some name →
  hashable name = false →
  let r := read_solver LinksSolver config parameters output_dir in
  returned r = inl (TypeError ("unhashable type: '" ++ type_name name ++ "'"))
  ∧ reads r = []
  ∧ config_after r !! "name" = None
  ∧ ∀ key, key ≠ "name" → config_after r !! key = config !! key.
Proof.
  intros Hname Hhash. unfold read_solver. rewrite Hname, Hhash. simpl.
  split_and!; [done|done|apply lookup_delete_eq|].
  intros key Hkey. by apply lookup_delete_ne.
Qed.

(** The only backend [read_solver] ever invokes is [LinksSolver], once,
    and exactly for the name ["links"]: its outcome is then the backend's.
    Under any other name, or none, no backend is invoked and
    [read_solver] itself raises a [ValueError] or a [TypeError]. *)
Theorem read_solver_dispatch (config : dict) parameters output_dir :
  let r := read_solver LinksSolver config parameters output_dir in
  let popped := delete "name" config in
  (config !! "name" = Some (VStr "links") →
   r = Outcome (read LinksSolver popped parameters output_dir).1
         [ReadCall (VStr "links") popped parameters output_dir]
         (read LinksSolver popped parameters output_dir).2)
  ∧ (config !! "name" ≠ Some (VStr "links") →
     reads r = []
     ∧ ∃ e, returned r = inl e
            ∧ (exc_class e = "ValueError" ∨ exc_class e = "TypeError")).
Proof.
  intros r popped. subst r popped. unfold read_solver. split.
  - intros ->. simpl. unfold AVAILABLE_SOLVERS. by rewrite lookup_singleton_eq.
  - intros Hother. destruct (config !! "name") as [name|]; [|by eauto].
    destruct name as [| | |s| |]; simpl; try by eauto.
    unfold AVAILABLE_SOLVERS. destruct (decide (s = "links")) as [->|Hs]; [done|].
    rewrite lookup_singleton_ne by done. by eauto.
Qed.

(** A failed lookup uses the name up: when [read_solver] has raised for a
    name that is unhashable or not registered, calling it again on the
    same dictionary raises ["Missing name for solver."] instead. *)
Theorem read_solver_again_after_failure (config : dict) parameters output_dir name :
  config !! "name" = Some name →
  hashable name = false ∨ registered LinksSolver name = None →
  let r := read_solver LinksSolver config parameters output_dir in
  (∃ e, returned r = inl e)
  ∧ read_solver LinksSolver (config_after r) parameters output_dir
    = Outcome (delete "name" config) [] (inl (ValueError "Missing name for solver.")).
Proof.
  intros Hname Hfail.
  assert (Hr : ∃ e, read_solver LinksSolver config parameters output_dir
                    = Outcome (delete "name" config) [] (inl e)).
  { unfold read_solver. rewrite Hname.
    destruct (hashable name) eqn:Hhash; simpl; [|by eauto].
    destruct Hfail as [?|Hreg]; [done|]. rewrite Hreg. by eauto. }
  destruct Hr as [e Hr]. simpl. rewrite Hr. simpl. split; [by eauto|].
  unfold read_solver. by rewrite lookup_delete_eq.
Qed.

End Dispatch.

(** [read_solver_unhashable_name] on a name given as a list. *)
Lemma read_solver_unhashable_name_witness :
  list_name_config !! "name" = Some (VList [VStr "links"])
  ∧ returned (read_solver sample_links list_name_config ["a"] "out")
    = inl (TypeError "unhashable type: 'list'")
  ∧ config_after (read_solver sample_links list_name_config ["a"] "out") !! "input"
    = Some (VStr "case.dat").
Proof.
  pose proof (read_solver_unhashable_name sample_links list_name_config ["a"] "out"
                (VList [VStr "links"]) eq_refl eq_refl) as (Hret & _ & _ & Hrest).
  split_and!; [reflexivity|exact Hret|].
  rewrite (Hrest "input"); [reflexivity|discriminate].
Defined.

(** [read_solver_again_after_failure] on the name ["nonexistent"]. *)
Lemma read_solver_again_after_failure_witness :
  nonexistent_config !! "name" = Some (VStr "nonexistent")
  ∧ returned (read_solver sample_links
                (config_after (read_solver sample_links nonexistent_config ["a"] "out"))
                ["a"] "out")
    = inl (ValueError "Missing name for solver.").
Proof.
  split; [reflexivity|].
  pose proof (read_solver_again_after_failure sample_links nonexistent_config ["a"]
                "out" (VStr "nonexistent") eq_refl (or_intror eq_refl)) as [_ Hagain].
  simpl in Hagain. by rewrite Hagain.
Defined.

End SolverFacts.

(** ** The surrogate builder *)

Module SurrogateFacts.
Import Py Surrogate.

Section Facts.

Context {A F World Hyper : Type} (zero : F).
Context (to_float64 : A → F) (refused : @ndarray A → option exn).
Context (construct : @gp_model F → M World Hyper).
Context (fit_gpytorch_mll : @gp_model F → Hyper → M World Hyper).

Local Abbreviation torch_tensor := (torch_tensor to_float64 refused).
Local Abbreviation requested := (requested zero to_float64 refused).
Local Abbreviation get_model :=
  (get_model zero to_float64 refused construct fit_gpytorch_mll).

(** [get_model] asks botorch for the [requested] model, fits it once and
    returns it. *)
Lemma get_model_requested x_data y_data var_data noisy w :
  get_model x_data y_data var_data noisy w
  = match requested x_data y_data var_data noisy with
    | inl e => (w, inl e)
    | inr spec =>
        match construct spec w with
        | (w1, inl e) => (w1, inl e)
        | (w1, inr h) =>
            match fit_gpytorch_mll spec h w1 with
            | (w2, inl e) => (w2, inl e)
            | (w2, inr h') => (w2, inr (Model spec h'))
            end
        end
    end.
Proof.
  unfold Surrogate.get_model, Surrogate.requested, mbind, M_bind, result_bind,
    mret, M_ret, pure_result.
  destruct (torch_tensor x_data) as [e|x]; [done|].
  destruct (torch_tensor y_data) as [e|y0]; [done|].
  destruct (unsqueeze 1 y0) as [e|y]; [done|].
  destruct noisy; [done|].
  destruct var_data as [v|]; [|done].
  destruct (torch_tensor v) as [e|v0]; [done|].
  by destruct (unsqueeze 1 v0).
Qed.

Lemma get_model_inv x_data y_data var_data noisy w w' mdl :
  get_model x_data y_data var_data noisy w = (w', inr mdl) →
  requested x_data y_data var_data noisy = inr (gp mdl).
Proof.
  rewrite get_model_requested.
  destruct (requested x_data y_data var_data noisy) as [e|spec]; [done|].
  destruct (construct spec w) as [w1 [e|h]]; [done|].
  destruct (fit_gpytorch_mll spec h w1) as [w2 [e|h']]; [done|].
  by intros [= _ <-].
Qed.

(** When botorch builds and fits the requested model, [get_model]
    returns it with the fitted hyperparameters. *)
Lemma get_model_returns x_data y_data var_data noisy spec w w1 h w2 h' :
  requested x_data y_data var_data noisy = inr spec →
  construct spec w = (w1, inr h) →
  fit_gpytorch_mll spec h w1 = (w2, inr h') →
  get_model x_data y_data var_data noisy w = (w2, inr (Model spec h')).
Proof.
  intros Hreq Hcons Hfit. by rewrite get_model_requested, Hreq, Hcons, Hfit.
Qed.

Lemma unsqueeze_data dim (t t' : @tensor F) :
  unsqueeze dim t = inr t' →
  data t' = data t
  ∧ shape t' = (take dim (shape t) ++ 1 :: drop dim (shape t))%list.
Proof. unfold unsqueeze. case_decide; [|done]. by intros [= <-]. Qed.

Lemma torch_tensor_inv (a : @ndarray A) (t : @tensor F) :
  torch_tensor a = inr t →
  refused a = None ∧ t = Tensor (np_shape a) (to_float64 <$> np_data a).
Proof.
  unfold Surrogate.torch_tensor. destruct (refused a); [done|]. by intros [= <-].
Qed.

(** A converted and unsqueezed array keeps the converted entries. *)
Lemma column_data (a : @ndarray A) (t : @tensor F) :
  torch_tensor a ≫= unsqueeze 1 = inr t →
  data t = to_float64 <$> np_data a.
Proof.
  unfold mbind, result_bind.
  destruct (torch_tensor a) as [e|t0] eqn:Hconv; [done|]. intros Hcol.
  apply unsqueeze_data in Hcol as [-> _].
  by apply torch_tensor_inv in Hconv as [_ ->].
Qed.

(** The requested model, mode by mode. *)
Lemma requested_inv x_data y_data var_data noisy spec :
  requested x_data y_data var_data noisy = inr spec →
  ∃ x y,
    torch_tensor x_data = inr x
    ∧ torch_tensor y_data ≫= unsqueeze 1 = inr y
    ∧ match noisy, var_data with
      | true, _ => spec = SingleTaskGP x y (Normalize 1) (Standardize 1)
      | false, None =>
          spec = FixedNoiseGP x y (zeros_like zero y) (Normalize 1) (Standardize 1)
      | false, Some v =>
          ∃ yvar, torch_tensor v ≫= unsqueeze 1 = inr yvar
                  ∧ spec = FixedNoiseGP x y yvar (Normalize 1) (Standardize 1)
      end.
Proof.
  unfold Surrogate.requested. unfold mbind at 1 2. unfold result_bind at 1 2.
  destruct (torch_tensor x_data) as [e|x]; [done|].
  destruct (torch_tensor y_data ≫= unsqueeze 1) as [e|y]; [done|].
  destruct noisy.
  { intros [= <-]. by exists x, y. }
  destruct var_data as [v|].
  - unfold mbind at 1. unfold result_bind at 1.
    destruct (torch_tensor v ≫= unsqueeze 1) as [e|yvar]; [done|].
    intros [= <-]. exists x, y. split_and!; [done|done|by exists yvar].
  - intros [= <-]. by exists x, y.
Qed.

Lemma requested_ok x_data y_data var_data noisy x y :
  torch_tensor x_data = inr x →
  torch_tensor y_data ≫= unsqueeze 1 = inr y →
  (noisy = false → ∀ v, var_data = Some v →
                   ∃ yvar, torch_tensor v ≫= unsqueeze 1 = inr yvar) →
  ∃ spec, requested x_data y_data var_data noisy = inr spec.
Proof.
  intros Hx Hy Hvar. unfold Surrogate.requested.
  unfold mbind at 1 2. unfold result_bind at 1 2. rewrite Hx, Hy.
  destruct noisy; [by eauto|]. destruct var_data as [v|]; [|by eauto].
  destruct (Hvar eq_refl v eq_refl) as [yvar Hyvar].
  unfold mbind at 1. unfold result_bind at 1. rewrite Hyvar. by eauto.
Qed.

(** C4: the [noisy] flag selects between the two model classes.  A model
    returned with [noisy] true is a [SingleTaskGP], which is given no
    noise and infers it.  A model returned with [noisy] false is a
    [FixedNoiseGP]: with variances supplied its noise holds exactly their
    converted entries, as a column; with none supplied its noise has the
    shape of the outcomes and every entry is zero.  Both are trained on
    the converted inputs and on the converted outcomes as a column.  In
    each mode [get_model] does return that model whenever torch takes the
    arrays over, the arrays used have an axis, and botorch builds and
    fits the model. *)
Theorem get_model_modes x_data y_data var_data noisy :
  (∀ w w' mdl,
     get_model x_data y_data var_data noisy w = (w', inr mdl) →
     noise_inferring (gp mdl) = noisy
     ∧ torch_tensor x_data = inr (train_X (gp mdl))
     ∧ torch_tensor y_data ≫= unsqueeze 1 = inr (train_Y (gp mdl))
     ∧ match noisy, var_data with
       | true, _ => train_Yvar (gp mdl) = None
       | false, Some var =>
           ∃ yvar, train_Yvar (gp mdl) = Some yvar
                   ∧ torch_tensor var ≫= unsqueeze 1 = inr yvar
                   ∧ data yvar = to_float64 <$> np_data var
       | false, None =>
           ∃ yvar, train_Yvar (gp mdl) = Some yvar
                   ∧ shape yvar = shape (train_Y (gp mdl))
                   ∧ length (data yvar) = length (np_data y_data)
                   ∧ ∀ v, v ∈ data yvar → v = zero
       end)
  ∧ (∀ x y,
       torch_tensor x_data = inr x →
       torch_tensor y_data ≫= unsqueeze 1 = inr y →
       (noisy = false → ∀ v, var_data = Some v →
                        ∃ yvar, torch_tensor v ≫= unsqueeze 1 = inr yvar) →
       ∃ spec,
         requested x_data y_data var_data noisy = inr spec
         ∧ noise_inferring spec = noisy
         ∧ train_X spec = x
         ∧ train_Y spec = y
         ∧ ∀ w w1 h w2 h',
             construct spec w = (w1, inr h) →
             fit_gpytorch_mll spec h w1 = (w2, inr h') →
             get_model x_data y_data var_data noisy w = (w2, inr (Model spec h'))).
Proof.
  split.
  - intros w w' mdl Hrun. apply get_model_inv, requested_inv in Hrun
      as (x & y & Hx & Hy & Hspec).
    destruct noisy.
    { rewrite Hspec. by split_and!. }
    destruct var_data as [var|].
    + destruct Hspec as (yvar & Hyvar & ->). simpl. split_and!; try done.
      exists yvar. split_and!; try done. by apply column_data in Hyvar.
    + rewrite Hspec. simpl. split_and!; try done.
      exists (zeros_like zero y). split_and!; try done.
      * simpl. rewrite length_replicate.
        apply column_data in Hy. by rewrite Hy, length_fmap.
      * simpl. intros v Hv. by apply elem_of_replicate in Hv as [-> _].
  - intros x y Hx Hy Hvar.
    destruct (requested_ok x_data y_data var_data noisy x y Hx Hy Hvar)
      as [spec Hreq].
    exists spec. pose proof (requested_inv _ _ _ _ _ Hreq)
      as (x' & y' & Hx' & Hy' & Hspec).
    assert (x' = x) as -> by congruence. assert (y' = y) as -> by congruence.
    assert (Hfields : noise_inferring spec = noisy
                      ∧ train_X spec = x ∧ train_Y spec = y).
    { destruct noisy; [by rewrite Hspec|].
      destruct var_data as [v|]; [by destruct Hspec as (yvar & _ & ->)|].
      by rewrite Hspec. }
    destruct Hfields as (? & ? & ?). split_and!; try done.
    intros w w1 h w2 h'. by apply get_model_returns.
Qed.


(** C3, as the code has it: [get_model] calls [fit_gpytorch_mll] once.
    When that call raises, [get_model] raises the same exception and
    leaves the library in the state the failed call left it in: it makes
    no further attempt and raises no error of its own. *)
Theorem get_model_fit_failure x_data y_data var_data noisy spec w w1 h w2 e :
  requested x_data y_data var_data noisy = inr spec →
  construct spec w = (w1, inr h) →
  fit_gpytorch_mll spec h w1 = (w2, inl e) →
  get_model x_data y_data var_data noisy w = (w2, inl e).
Proof.
  intros Hreq Hcons Hfit. by rewrite get_model_requested, Hreq, Hcons, Hfit.
Qed.

(** C10: with [noisy] true the variances play no part: [get_model]
    behaves the same whatever [var_data] is, supplied or omitted. *)
Theorem get_model_noisy_ignores_var x_data y_data var_data w :
  get_model x_data y_data (Some var_data) true w
  = get_model x_data y_data None true w.
Proof. reflexivity. Qed.

End Facts.

(** [get_model_modes] on the three points, in each of the three modes. *)
Lemma get_model_modes_witness :
  get_model 0%Z sample_float64 sample_refused sample_construct steady_fit
    x_one y_one None false 0 = (1, inr fitted_one)
  ∧ get_model 0%Z sample_float64 sample_refused sample_construct steady_fit
      x_one y_one (Some var_one) false 0 = (1, inr fitted_one_var)
  ∧ get_model 0%Z sample_float64 sample_refused sample_construct steady_fit
      x_one y_one (Some var_one) true 0 = (1, inr fitted_one_noisy)
  ∧ noise_inferring (gp fitted_one_noisy) = true
  ∧ train_Yvar (gp fitted_one_var) = Some (Tensor [3; 1] [1; 2; 1]%Z).
Proof.
  split_and!.
  - destruct (proj2 (get_model_modes 0%Z sample_float64 sample_refused
                       sample_construct steady_fit x_one y_one None false)
                (Tensor [3; 1] [0; 5; 10]%Z) (Tensor [3; 1] [10; 0; 10]%Z)
                eq_refl eq_refl)
      as (spec & Hreq & _ & _ & _ & Hrun).
    + intros _ v Hv. discriminate Hv.
    + vm_compute in Hreq. injection Hreq as <-.
      exact (Hrun 0 0 0 1 1 eq_refl eq_refl).
  - destruct (proj2 (get_model_modes 0%Z sample_float64 sample_refused
                       sample_construct steady_fit x_one y_one (Some var_one) false)
                (Tensor [3; 1] [0; 5; 10]%Z) (Tensor [3; 1] [10; 0; 10]%Z)
                eq_refl eq_refl)
      as (spec & Hreq & _ & _ & _ & Hrun).
    + intros _ v [= <-]. by eexists.
    + vm_compute in Hreq. injection Hreq as <-.
      exact (Hrun 0 0 0 1 1 eq_refl eq_refl).
  - destruct (proj2 (get_model_modes 0%Z sample_float64 sample_refused
                       sample_construct steady_fit x_one y_one (Some var_one) true)
                (Tensor [3; 1] [0; 5; 10]%Z) (Tensor [3; 1] [10; 0; 10]%Z)
                eq_refl eq_refl)
      as (spec & Hreq & _ & _ & _ & Hrun).
    + intros Hnoisy. discriminate Hnoisy.
    + vm_compute in Hreq. injection Hreq as <-.
      exact (Hrun 0 0 0 1 1 eq_refl eq_refl).
  - exact (proj1 (proj1 (get_model_modes 0%Z sample_float64 sample_refused
                           sample_construct steady_fit x_one y_one (Some var_one)
                           true) 0 1 fitted_one_noisy eq_refl)).
  - destruct (proj1 (get_model_modes 0%Z sample_float64 sample_refused
                       sample_construct steady_fit x_one y_one (Some var_one)
                       false) 0 1 fitted_one_var eq_refl)
      as (_ & _ & _ & yvar & Hyvar & Hcol & _).
    rewrite Hyvar. f_equal. vm_compute in Hcol. by injection Hcol as <-.
Defined.


(** [get_model_fit_failure] with the routine that fails on its first call. *)
Lemma get_model_fit_failure_witness :
  requested 0%Z sample_float64 sample_refused x_one y_one None false
  = inr (gp fitted_one)
  ∧ flaky_fit (gp fitted_one) 0 0
    = (1, inl (Raise "NotPSDError" "Matrix not positive definite"))
  ∧ get_model 0%Z sample_float64 sample_refused sample_construct flaky_fit
      x_one y_one None false 0
    = (1, inl (Raise "NotPSDError" "Matrix not positive definite")).
Proof.
  split_and!; [reflexivity|reflexivity|].
  exact (get_model_fit_failure 0%Z sample_float64 sample_refused sample_construct
           flaky_fit x_one y_one None false (gp fitted_one) 0 0 0 1 _
           eq_refl eq_refl eq_refl).
Defined.

(** C3 as stated fails: with a fitting routine that fails on its first
    call only, [get_model] raises after that one call, although a second
    call would have succeeded, and what it raises is the routine's own
    exception, no [SurrogateFitError]. *)
Lemma one_failed_fit_aborts :
  get_model 0%Z sample_float64 sample_refused sample_construct flaky_fit
    x_one y_one None false 0
  = (1, inl (Raise "NotPSDError" "Matrix not positive definite"))
  ∧ flaky_fit (gp fitted_one) 0 1 = (2, inr 1)
  ∧ isinstance (Raise "NotPSDError" "Matrix not positive definite")
      "SurrogateFitError" = false.
Proof. split_and!; reflexivity. Qed.

(** *** Further behaviour of [get_model] *)

Section Shapes.

Context {A F World Hyper : Type} (zero : F).
Context (to_float64 : A → F) (refused : @ndarray A → option exn).
Context (construct : @gp_model F → M World Hyper).
Context (fit_gpytorch_mll : @gp_model F → Hyper → M World Hyper).

Local Abbreviation torch_tensor := (torch_tensor to_float64 refused).
Local Abbreviation requested := (requested zero to_float64 refused).
Local Abbreviation get_model :=
  (get_model zero to_float64 refused construct fit_gpytorch_mll).

Lemma unsqueeze_scalar (t : @tensor F) :
  shape t = [] → ∃ msg, unsqueeze 1 t = inl (IndexError msg).
Proof.
  intros Hshape. unfold unsqueeze. rewrite Hshape.
  destruct (decide (1 ≤ length (@nil nat))%nat) as [Hlen|Hlen]; [|by eexists].
  simpl in Hlen. lia.
Qed.

Lemma torch_tensor_taken (a : @ndarray A) :
  refused a = None →
  torch_tensor a = inr (Tensor (np_shape a) (to_float64 <$> np_data a)).
Proof. intros Hok. unfold Surrogate.torch_tensor. by rewrite Hok. Qed.

Lemma torch_tensor_refused (a : @ndarray A) e :
  refused a = Some e → torch_tensor a = inl e.
Proof. intros Hno. unfold Surrogate.torch_tensor. by rewrite Hno. Qed.

(** The errors of [get_model] itself come before botorch is asked for
    anything, and leave the library as it was.  An array torch refuses
    raises torch's exception: the inputs first, then the outcomes, then,
    in the fixed-noise mode only, the variances.  Outcomes that are a
    scalar without an axis raise [IndexError] at [unsqueeze(1)], and so do
    such variances in the fixed-noise mode. *)
Theorem get_model_own_errors x_data y_data var_data noisy w :
  (∀ e, refused x_data = Some e →
        get_model x_data y_data var_data noisy w = (w, inl e))
  ∧ (∀ e, refused x_data = None → refused y_data = Some e →
          get_model x_data y_data var_data noisy w = (w, inl e))
  ∧ (refused x_data = None → refused y_data = None → np_shape y_data = [] →
     ∃ msg, get_model x_data y_data var_data noisy w = (w, inl (IndexError msg)))
  ∧ (∀ v y, refused x_data = None →
            torch_tensor y_data ≫= unsqueeze 1 = inr y →
            noisy = false → var_data = Some v →
            (∀ e, refused v = Some e →
                  get_model x_data y_data var_data noisy w = (w, inl e))
            ∧ (refused v = None → np_shape v = [] →
               ∃ msg, get_model x_data y_data var_data noisy w
                      = (w, inl (IndexError msg)))).
Proof.
  assert (Hown : ∀ e, requested x_data y_data var_data noisy = inl e →
                      get_model x_data y_data var_data noisy w = (w, inl e)).
  { intros e Hreq. by rewrite get_model_requested, Hreq. }
  split_and!.
  - intros e Hx. apply Hown. unfold Surrogate.requested.
    by rewrite (torch_tensor_refused _ _ Hx).
  - intros e Hx Hy. apply Hown. unfold Surrogate.requested.
    by rewrite (torch_tensor_taken _ Hx), (torch_tensor_refused _ _ Hy).
  - intros Hx Hy Hshape.
    destruct (unsqueeze_scalar (Tensor (np_shape y_data) (to_float64 <$> np_data y_data)))
      as [msg Hmsg]; [done|].
    exists msg. apply Hown. unfold Surrogate.requested.
    rewrite (torch_tensor_taken _ Hx), (torch_tensor_taken _ Hy).
    unfold mbind, result_bind. by rewrite Hmsg.
  - intros v y Hx Hy -> ->. split.
    + intros e Hv. apply Hown. unfold Surrogate.requested.
      rewrite (torch_tensor_taken _ Hx). unfold mbind at 1 2. unfold result_bind at 1 2.
      rewrite Hy. by rewrite (torch_tensor_refused _ _ Hv).
    + intros Hv Hshape.
      destruct (unsqueeze_scalar (Tensor (np_shape v) (to_float64 <$> np_data v)))
        as [msg Hmsg]; [done|].
      exists msg. apply Hown. unfold Surrogate.requested.
      rewrite (torch_tensor_taken _ Hx). unfold mbind at 1 2. unfold result_bind at 1 2.
      rewrite Hy, (torch_tensor_taken _ Hv). unfold mbind, result_bind. by rewrite Hmsg.
Qed.

(** Outcomes given as a vector of [n] entries are handed to botorch as a
    column of shape [n; 1] holding the converted entries, next to the
    converted inputs in their own shape.  In the fixed-noise mode the
    noise is a column too: zeros for every outcome entry when no variances
    are given, the [k] converted variances as shape [k; 1] otherwise.
    [get_model] does not compare [k] with [n]; with a constructor that
    checks shapes, a model is returned only when they are equal. *)
Theorem get_model_columns x_data y_data var_data noisy n :
  refused x_data = None →
  refused y_data = None →
  np_shape y_data = [n] →
  let x := Tensor (np_shape x_data) (to_float64 <$> np_data x_data) in
  let y := Tensor [n; 1] (to_float64 <$> np_data y_data) in
  match noisy, var_data with
  | true, _ =>
      requested x_data y_data var_data noisy
      = inr (SingleTaskGP x y (Normalize 1) (Standardize 1))
  | false, None =>
      requested x_data y_data var_data noisy
      = inr (FixedNoiseGP x y (Tensor [n; 1] (replicate (length (np_data y_data)) zero))
               (Normalize 1) (Standardize 1))
  | false, Some v =>
      ∀ k, refused v = None → np_shape v = [k] →
           requested x_data y_data var_data noisy
           = inr (FixedNoiseGP x y (Tensor [k; 1] (to_float64 <$> np_data v))
                    (Normalize 1) (Standardize 1))
           ∧ (checks_shapes construct →
              ∀ w w' mdl, get_model x_data y_data var_data noisy w = (w', inr mdl) →
                          k = n)
  end
  ∧ ∀ spec w w1 h w2 h',
      requested x_data y_data var_data noisy = inr spec →
      construct spec w = (w1, inr h) →
      fit_gpytorch_mll spec h w1 = (w2, inr h') →
      get_model x_data y_data var_data noisy w = (w2, inr (Model spec h')).
Proof.
  intros Hx Hy Hn x y. split.
  - unfold Surrogate.requested.
    rewrite (torch_tensor_taken _ Hx), (torch_tensor_taken _ Hy).
    unfold mbind at 1 2. unfold result_bind at 1 2. unfold unsqueeze at 1.
    simpl. rewrite Hn. simpl. fold x y.
    destruct noisy; [done|]. destruct var_data as [v|].
    + intros k Hv Hk.
      assert (Hreq : Surrogate.requested zero to_float64 refused x_data y_data
                       (Some v) false
                     = inr (FixedNoiseGP x y (Tensor [k; 1] (to_float64 <$> np_data v))
                              (Normalize 1) (Standardize 1))).
      { unfold Surrogate.requested.
        rewrite (torch_tensor_taken _ Hx), (torch_tensor_taken _ Hy), (torch_tensor_taken _ Hv).
        unfold mbind, result_bind, unsqueeze. simpl. rewrite Hn, Hk. by simpl. }
      split.
      * rewrite (torch_tensor_taken _ Hv). unfold mbind, result_bind, unsqueeze.
        simpl. rewrite Hk. by simpl.
      * intros Hchecks w w' mdl Hrun.
        revert Hrun. rewrite get_model_requested, Hreq.
        destruct (construct _ w) as [w1 [e|h]] eqn:Hcons; [done|]. intros _.
        apply Hchecks in Hcons. unfold well_shaped in Hcons. simpl in Hcons.
        apply andb_true_iff in Hcons as [_ Hnoise].
        apply bool_decide_eq_true in Hnoise. by injection Hnoise.
    + unfold zeros_like. simpl. by rewrite length_fmap.
  - intros spec w w1 h w2 h'. apply get_model_returns.
Qed.

End Shapes.

(** The conversion to float64 is no identity: an integer outcome beyond
    53 bits reaches botorch rounded. *)
Lemma torch_tensor_rounds :
  torch_tensor sample_float64 sample_refused y_large
  = inr (Tensor [3] [9007199254740992; 0; 10]%Z).
Proof. reflexivity. Qed.

(** [get_model_own_errors] on a scalar outcome and on outcomes given as
    strings. *)
Lemma get_model_own_errors_witness :
  np_shape y_scalar = []
  ∧ (∃ msg, get_model 0%Z sample_float64 sample_refused sample_construct steady_fit
              x_one y_scalar None true 0 = (0, inl (IndexError msg)))
  ∧ get_model 0%Z sample_float64 sample_refused sample_construct steady_fit
      x_one y_strings None true 0
    = (0, inl (TypeError "can't convert np.ndarray of type numpy.str_")).
Proof.
  split; [reflexivity|]. split.
  - exact (proj1 (proj2 (proj2
      (get_model_own_errors 0%Z sample_float64 sample_refused sample_construct
         steady_fit x_one y_scalar None true 0))) eq_refl eq_refl eq_refl).
  - exact (proj1 (proj2
      (get_model_own_errors 0%Z sample_float64 sample_refused sample_construct
         steady_fit x_one y_strings None true 0)) _ eq_refl eq_refl).
Defined.

(** [get_model_columns] on three outcomes with three variances. *)
Lemma get_model_columns_witness :
  np_shape y_one = [3]
  ∧ get_model 0%Z sample_float64 sample_refused sample_construct steady_fit
      x_one y_one (Some var_one) false 0 = (1, inr fitted_one_var)
  ∧ ∃ e, get_model 0%Z sample_float64 sample_refused sample_construct steady_fit
           x_one y_one (Some var_short) false 0 = (0, inl e).
Proof.
  split; [reflexivity|]. split; [|by eexists].
  destruct (get_model_columns 0%Z sample_float64 sample_refused sample_construct
              steady_fit x_one y_one (Some var_one) false 3 eq_refl eq_refl eq_refl)
    as [Hreq Hrun].
  destruct (Hreq 3 eq_refl eq_refl) as [Hspec _].
  exact (Hrun _ 0 0 0 1 1 Hspec eq_refl eq_refl).
Defined.

End SurrogateFacts.

(** ** The driver *)

Module DriverFacts.
Import Py Driver.

Local Open Scope list_scope.

(** *** The file system *)

Lemma lookup_without_tree (p q : path) (fs : filesystem) :
  without_tree p fs !! q = if decide (p `prefix_of` q) then None else fs !! q.
Proof.
  unfold without_tree. case_decide as Hpre.
  - apply map_lookup_filter_None. right. intros x _ Hnot. by apply Hnot.
  - destruct (fs !! q) as [x|] eqn:Hq.
    + by apply map_lookup_filter_Some.
    + apply map_lookup_filter_None. by left.
Qed.

Local Ltac split_decides :=
  repeat match goal with
         | |- context [decide ?P] => destruct (decide P) as [?|?]
         end;
  try done; try (exfalso; set_solver).

Lemma lookup_foldr_mkdir_missing (l : list path) (fs : filesystem) (q : path) :
  foldr mkdir_missing fs l !! q
  = match fs !! q with
    | Some x => Some x
    | None => if decide (q ∈ l) then Some Dir else None
    end.
Proof.
  revert q. induction l as [|a l IH]; intros q; cbn [foldr].
  - destruct (fs !! q); [done|]. split_decides.
  - unfold mkdir_missing at 1.
    destruct (foldr mkdir_missing fs l !! a) as [x|] eqn:Ha.
    + rewrite IH. destruct (fs !! q) eqn:Hq; [done|].
      destruct (decide (q = a)) as [->|Hne].
      * rewrite IH, Hq in Ha. revert Ha. split_decides.
      * split_decides.
    + destruct (decide (a = q)) as [->|Hne].
      * rewrite lookup_insert_eq. rewrite IH in Ha. revert Ha.
        destruct (fs !! q); [done|]. split_decides.
      * rewrite lookup_insert_ne by done. rewrite IH.
        destruct (fs !! q); [done|]. split_decides.
Qed.

Lemma elem_of_prefixes (p q : path) :
  q ∈ prefixes p ↔ q ≠ [] ∧ q `prefix_of` p.
Proof.
  unfold prefixes. rewrite list_elem_of_fmap. split.
  - intros (n & -> & Hn). apply elem_of_seq in Hn. split.
    + destruct p; simpl in *; [lia|]. destruct n; [lia|done].
    + apply prefix_take.
  - intros [Hne [k ->]]. exists (length q). split.
    + by rewrite take_app_length.
    + apply elem_of_seq. rewrite length_app. destruct q; [done|]. simpl. lia.
Qed.

Lemma self_in_prefixes (p : path) : p ≠ [] → p ∈ prefixes p.
Proof. intros Hne. by apply elem_of_prefixes. Qed.

Lemma child_not_prefix (p : path) (name : string) : ¬ (p ++ [name])%list `prefix_of` p.
Proof. apply prefix_snoc_not. Qed.

Lemma child_not_in_prefixes (p : path) (name : string) : (p ++ [name])%list ∉ prefixes p.
Proof. rewrite elem_of_prefixes. intros [_ Hpre]. by apply child_not_prefix in Hpre. Qed.

Lemma node_at_nonroot (fs : filesystem) (p : path) : p ≠ [] → node_at fs p = fs !! p.
Proof. by destruct p. Qed.

(** *** Runs of the blocks of [main] *)

Section Runs.

Context (env : environment).

Local Abbreviation machine := (machine env).
Local Abbreviation event := (event env).

Lemma bind_run {A B} (c : M machine A) (k : A → M machine B) (m : machine) :
  (c ≫= k) m
  = match c m with
    | (m', inl e) => (m', inl e)
    | (m', inr a) => k a m'
    end.
Proof. reflexivity. Qed.

Lemma rmtree_inv (s : string) (p : path) (m m' : machine) u :
  rmtree env s p m = (m', inr u) →
  p ≠ [] ∧ rmdir_error s = None ∧ node_at (fs env m) p = Some Dir
  ∧ m' = Machine env (heap env m) (without_tree p (fs env m))
           (trace env m ++ [EvRmtree env p]).
Proof.
  unfold rmtree. simpl.
  destruct (node_at (fs env m) p) as [[|c]|]; [|done|done].
  destruct (rmdir_error s); [done|].
  destruct p; [done|]. by intros [= <-].
Qed.

Lemma makedirs_inv (p : path) (m m' : machine) u :
  makedirs env p m = (m', inr u) →
  (node_at (fs env m) p = Some Dir
   ∧ m' = Machine env (heap env m) (fs env m) (trace env m ++ [EvMakedirs env p]))
  ∨ (node_at (fs env m) p = None
     ∧ existsb (λ q, is_file (fs env m !! q)) (prefixes p) = false
     ∧ m' = Machine env (heap env m) (foldr mkdir_missing (fs env m) (prefixes p))
              (trace env m ++ [EvMakedirs env p])).
Proof.
  unfold makedirs. simpl.
  destruct (node_at (fs env m) p) as [[|c]|]; [|done|].
  - intros [= <-]. by left.
  - destruct (existsb _ _); [done|]. intros [= <-]. by right.
Qed.

Lemma dump_to_inv (p : path) (config : dict) (m m' : machine) u :
  dump_to env p config m = (m', inr u) →
  node_at (fs env m) (parent p) = Some Dir
  ∧ (safe_dump env config).2 = None
  ∧ m' = Machine env (heap env m)
           (<[p := File (safe_dump env config).1]> (fs env m))
           (trace env m ++ [EvWrite env p (safe_dump env config).1]).
Proof.
  unfold dump_to.
  destruct (node_at (fs env m) p) as [[|c]|];
    destruct (node_at (fs env m) (parent p)) as [[|c']|]; try done;
    destruct (safe_dump env config).2; try done; by intros [= <-].
Qed.

Lemma build_output_directory_inv (config : dict) (m m' : machine) s :
  build_output_directory env config m = (m', inr s) →
  ∃ p, config !! "output" = Some (VStr s)
       ∧ resolve env s = inr p
       ∧ p ≠ []
       ∧ (safe_dump env config).2 = None
       ∧ let was_dir := isdir (fs env m) p in
         let fs0 := if was_dir then without_tree p (fs env m) else fs env m in
         fs0 !! p = None
         ∧ m' = Machine env (heap env m)
                  (<[p ++ ["config"] := File (safe_dump env config).1]>
                     (foldr mkdir_missing fs0 (prefixes p)))
                  (trace env m
                     ++ (if was_dir then [EvRmtree env p] else [])
                     ++ [EvMakedirs env p;
                         EvWrite env (p ++ ["config"]) (safe_dump env config).1]).
Proof.
  unfold build_output_directory. rewrite bind_run. unfold getitem.
  destruct (config !! "output") as [v|]; [|done]. simpl.
  rewrite bind_run. unfold fspath.
  destruct v as [| | |s'| |]; try done.
  destruct (resolve env s') as [e|p] eqn:Hres; [done|]. simpl.
  rewrite bind_run. rewrite bind_run.
  destruct (isdir (fs env m) p) eqn:Hdir.
  - destruct (rmtree env s' p m) as [m1 [e|u]] eqn:Hrm; [done|].
    apply rmtree_inv in Hrm as (Hne & _ & Hnode & ->).
    rewrite bind_run.
    destruct (makedirs env p _) as [m2 [e|u2]] eqn:Hmk; [done|].
    apply makedirs_inv in Hmk as [[Habs _]|(Hnone & Hex & ->)]; simpl in *.
    { rewrite node_at_nonroot, lookup_without_tree, decide_True in Habs by done. done. }
    rewrite bind_run.
    destruct (dump_to env _ config _) as [m3 [e|u3]] eqn:Hdump; [done|].
    apply dump_to_inv in Hdump as (_ & Hsafe & ->); simpl in *.
    intros [= <- <-]. exists p. rewrite Hdir. split_and!; try done.
    + by rewrite lookup_without_tree, decide_True.
    + f_equal. by rewrite <- !app_assoc.
  - simpl. rewrite bind_run.
    destruct (makedirs env p _) as [m2 [e|u2]] eqn:Hmk; [done|].
    apply makedirs_inv in Hmk as [[Habs _]|(Hnone & Hex & ->)]; simpl in *.
    { unfold isdir in Hdir. by rewrite Habs in Hdir. }
    rewrite bind_run.
    destruct (dump_to env _ config _) as [m3 [e|u3]] eqn:Hdump; [done|].
    apply dump_to_inv in Hdump as (_ & Hsafe & ->); simpl in *.
    intros [= <- <-].
    assert (p ≠ []) as Hne by (by intros ->).
    exists p. rewrite Hdir. split_and!; try done.
    + by rewrite <- node_at_nonroot.
    + f_equal. by rewrite <- !app_assoc.
Qed.



(** The trace only grows, and each block adds its own kind of events. *)

Lemma emits_ret {A} (P : event → Prop) (a : A) : emits env P (mret a).
Proof. intros m. exists []. by rewrite app_nil_r. Qed.

Lemma emits_throw {A} (P : event → Prop) (e : exn) :
  emits env P (throw e : M machine A).
Proof. intros m. exists []. by rewrite app_nil_r. Qed.

Lemma emits_bind {A B} (P : event → Prop) (c : M machine A) (k : A → M machine B) :
  emits env P c → (∀ a, emits env P (k a)) → emits env P (c ≫= k).
Proof.
  intros Hc Hk m. rewrite bind_run. destruct (Hc m) as (t & Ht & HP).
  destruct (c m) as [m1 [e|a]]; simpl in *; [by exists t|].
  destruct (Hk a m1) as (t' & Ht' & HP'). exists (t ++ t'). split.
  - by rewrite Ht', Ht, app_assoc.
  - by apply Forall_app.
Qed.

Lemma emits_call {A} (P : event → Prop) (ev : event) (f : Ext (X env) A) :
  P ev → emits env P (call env ev f).
Proof. intros HP m. exists [ev]. split; [done|]. by apply Forall_singleton. Qed.

Lemma emits_getitem (P : event → Prop) (d : dict) (key : string) :
  emits env P (getitem env d key).
Proof. unfold getitem. destruct (d !! key); [apply emits_ret|apply emits_throw]. Qed.

Lemma emits_fspath (P : event → Prop) (v : value) : emits env P (fspath env v).
Proof.
  unfold fspath. destruct v; try apply emits_throw.
  destruct (resolve env s); [apply emits_throw|apply emits_ret].
Qed.

Lemma emits_rmtree (P : event → Prop) (s : string) (p : path) :
  P (EvRmtree env p) → emits env P (rmtree env s p).
Proof.
  intros HP m. exists [EvRmtree env p]. split; [|by apply Forall_singleton].
  unfold rmtree. simpl. destruct (node_at (fs env m) p) as [[|c]|]; try done.
  destruct (rmdir_error s); [done|]. by destruct p.
Qed.

Lemma emits_makedirs (P : event → Prop) (p : path) :
  P (EvMakedirs env p) → emits env P (makedirs env p).
Proof.
  intros HP m. exists [EvMakedirs env p]. split; [|by apply Forall_singleton].
  unfold makedirs. simpl. destruct (node_at (fs env m) p) as [[|c]|]; try done.
  by destruct (existsb _ _).
Qed.

Lemma emits_dump_to (P : event → Prop) (p : path) (config : dict) :
  (∀ text, P (EvWrite env p text)) → emits env P (dump_to env p config).
Proof.
  intros HP m. unfold dump_to.
  destruct (node_at (fs env m) p) as [[|c]|];
    destruct (node_at (fs env m) (parent p)) as [[|c']|]; simpl;
    try (exists []; by rewrite app_nil_r);
    (eexists [_]; split; [done|]; by apply Forall_singleton).
Qed.

Lemma emits_build_output_directory (config : dict) :
  emits env (λ ev, uses_problem env ev = false) (build_output_directory env config).
Proof.
  unfold build_output_directory.
  apply emits_bind; [apply emits_getitem|intros v].
  apply emits_bind; [apply emits_fspath|intros sp].
  apply emits_bind; [intros m; exists []; by rewrite app_nil_r|intros is_dir].
  apply emits_bind; [destruct is_dir; [by apply emits_rmtree|apply emits_ret]|intros _].
  apply emits_bind; [by apply emits_makedirs|intros _].
  apply emits_bind; [by apply emits_dump_to|intros _]. apply emits_ret.
Qed.

Lemma emits_load_config :
  emits env (λ ev, uses_problem env ev = false) (load_config env).
Proof. unfold load_config. apply emits_bind; [|intros file]; by apply emits_call. Qed.

Lemma emits_setup : emits env (λ ev, uses_problem env ev = false) (setup env).
Proof.
  unfold setup. apply emits_bind; [apply emits_load_config|intros config].
  apply emits_bind; [apply emits_build_output_directory|intros s]. apply emits_ret.
Qed.





Lemma rerun_best_case_run (pb : problem env) (best : RawVector env) (m : machine) :
  rerun_best_case env pb best m
  = match pb_config env pb !! "skip_last_run" with
    | Some _ => (m, inr tt)
    | None =>
        match normalise env (pb_parameters env pb) best (heap env m, fs env m) with
        | (st, inl e) =>
            (Machine env st.1 st.2 (trace env m ++ [EvNormalise env best]), inl e)
        | (st, inr u) =>
            match call_objective env (pb_objective env pb) u st with
            | (st', r) =>
                (Machine env st'.1 st'.2
                   (trace env m ++ [EvNormalise env best; EvObjective env u]),
                 match r with
                 | inl e => inl e
                 | inr _ => inr tt
                 end)
            end
        end
    end.
Proof.
  unfold rerun_best_case. destruct (pb_config env pb !! "skip_last_run"); [done|].
  rewrite bind_run. unfold call at 1.
  destruct (normalise env (pb_parameters env pb) best (heap env m, fs env m))
    as [[h f] [e|u]]; simpl; [done|].
  rewrite bind_run. unfold call at 1. simpl.
  destruct (call_objective env (pb_objective env pb) u (h, f)) as [[h' f'] [e|a]];
    simpl; by rewrite <- app_assoc.
Qed.

(** C1, as the code has it: once [optimise] has returned, [main] calls
    the objective again exactly when the configuration dictionary has no
    [skip_last_run] key, and then once, on the normalised best parameters.
    When the key is present [main] ends there, whatever the value under
    the key. *)
Theorem rerun_iff_no_skip_key (m0 m1 m2 m3 : machine) config s pb best :
  setup env m0 = (m1, inr (config, s)) →
  build_problem env config s m1 = (m2, inr pb) →
  run_optimisation env pb s m2 = (m3, inr best) →
  let normalised :=
    normalise env (pb_parameters env pb) best (heap env m3, fs env m3) in
  let m' := (main env m0).1 in
  (∃ t, trace env m' = trace env m3 ++ t
        ∧ objective_calls env t
          = match pb_config env pb !! "skip_last_run", normalised.2 with
            | None, inr u => [u]
            | _, _ => []
            end)
  ∧ (∀ v, pb_config env pb !! "skip_last_run" = Some v →
          main env m0 = (m3, inr tt))
  ∧ (pb_config env pb !! "skip_last_run" = None →
     ∀ u, normalised.2 = inr u →
          trace env m' = trace env m3 ++ [EvNormalise env best; EvObjective env u]
          ∧ (heap env m', fs env m')
            = (call_objective env (pb_objective env pb) u normalised.1).1).
Proof.
  intros Hsetup Hbuild Hrun normalised m'.
  assert (Hmain : main env m0 = rerun_best_case env pb best m3).
  { unfold main. rewrite bind_run, Hsetup. unfold solve. simpl.
    by rewrite bind_run, Hbuild, bind_run, Hrun. }
  subst m' normalised. rewrite Hmain, rerun_best_case_run.
  destruct (pb_config env pb !! "skip_last_run") as [v|] eqn:Hkey.
  { split_and!; [|done|done]. exists []. by rewrite app_nil_r. }
  destruct (normalise env (pb_parameters env pb) best (heap env m3, fs env m3))
    as [st [e|u]]; simpl.
  { split_and!; [|done|done]. by exists [EvNormalise env best]. }
  destruct (call_objective env (pb_objective env pb) u st) as [st' r] eqn:Hobj;
    simpl.
  split_and!;
    [ eexists; split; reflexivity
    | done
    | intros _ u' [= <-]; split; [reflexivity|rewrite Hobj; by destruct st'] ].
Qed.

End Runs.

(** [rerun_iff_no_skip_key] on the configuration without the key: the
    run ends with the normalisation and the evaluation of the best point. *)
Lemma rerun_iff_no_skip_key_witness :
  sample_config !! "skip_last_run" = None
  ∧ trace _ (main (sample_env sample_config) (start sample_config)).1
    = trace _ (run_optimisation (sample_env sample_config)
                 (Problem (sample_env sample_config) sample_config () () () ()) "out"
                 (build_problem (sample_env sample_config) sample_config "out"
                    (setup (sample_env sample_config) (start sample_config)).1).1).1
      ++ [EvNormalise (sample_env sample_config) [5%Z];
          EvObjective (sample_env sample_config) [5%Z]].
Proof.
  split; [reflexivity|].
  refine (proj1 (proj2 (proj2
    (rerun_iff_no_skip_key (sample_env sample_config) (start sample_config)
       _ _ _ sample_config "out"
       (Problem (sample_env sample_config) sample_config () () () ()) [5%Z]
       _ _ _)) eq_refl [5%Z] eq_refl)).
  - vm_compute. reflexivity.
  - vm_compute. reflexivity.
  - vm_compute. reflexivity.
Defined.

(** C1 as stated fails: with [skip_last_run: false] in the
    configuration [main] ends without calling the objective again; the
    only evaluations are the two of the optimiser. *)
Lemma skip_last_run_false_skips :
  sample_config_no_skip !! "skip_last_run" = Some (VBool false)
  ∧ (main (sample_env sample_config_no_skip) (start sample_config_no_skip)).2
    = inr ()
  ∧ objective_calls _
      (trace _ (main (sample_env sample_config_no_skip)
                  (start sample_config_no_skip)).1) = []
  ∧ heap _ (main (sample_env sample_config_no_skip) (start sample_config_no_skip)).1
    = [[1%Z]; [2%Z]].
Proof. split_and!; vm_compute; reflexivity. Qed.





(** *** Early exits and the file system *)

Section Edges.

Context (env : environment).

Local Abbreviation machine := (machine env).
Local Abbreviation event := (event env).

Lemma main_after_load (m0 mc : machine) (config : dict) :
  load_config env m0 = (mc, inr config) →
  main env m0
  = match build_output_directory env config mc with
    | (m1, inl e) => (m1, inl e)
    | (m1, inr s) => solve env config s m1
    end.
Proof.
  intros Hload. unfold main, setup. rewrite !bind_run, Hload, bind_run.
  by destruct (build_output_directory env config mc) as [m1 [e|s]].
Qed.

(** A configuration without an [output] key stops [main] with
    [KeyError('output')] right after the configuration is read: nothing
    is removed, created or written, and no helper is called. *)
Theorem main_missing_output (m0 mc : machine) (config : dict) :
  load_config env m0 = (mc, inr config) →
  config !! "output" = None →
  main env m0 = (mc, inl (KeyError "output")).
Proof.
  intros Hload Hout. rewrite (main_after_load m0 mc config Hload).
  unfold build_output_directory. rewrite bind_run. unfold getitem. by rewrite Hout.
Qed.

(** When the [output] path names a regular file, [main] stops with
    [FileExistsError] from [os.makedirs]: the file is left in place, the
    file system is untouched and no helper is called. *)
Theorem main_output_is_file (m0 mc : machine) (config : dict) s p content :
  load_config env m0 = (mc, inr config) →
  config !! "output" = Some (VStr s) →
  resolve env s = inr p →
  p ≠ [] →
  fs env mc !! p = Some (File content) →
  main env m0
  = (Machine env (heap env mc) (fs env mc) (trace env mc ++ [EvMakedirs env p]),
     inl (Raise "FileExistsError" "File exists")).
Proof.
  intros Hload Hout Hres Hne Hfile. rewrite (main_after_load m0 mc config Hload).
  unfold build_output_directory. rewrite bind_run. unfold getitem. rewrite Hout. simpl.
  rewrite bind_run. unfold fspath. rewrite Hres. simpl.
  rewrite bind_run. unfold isdir at 1. rewrite node_at_nonroot, Hfile by done.
  rewrite bind_run. simpl. rewrite bind_run. unfold makedirs at 1. simpl.
  by rewrite node_at_nonroot, Hfile by done.
Qed.


(** When nothing exists at the [output] path or below it and none of its
    ancestors is a file, [main] creates the directory together with its
    missing ancestors and writes the configuration into it.  Nothing is
    removed: every entry of the file system is still there, unchanged. *)
Theorem fresh_output_directory_created (m0 mc : machine) (config : dict) s p :
  load_config env m0 = (mc, inr config) →
  config !! "output" = Some (VStr s) →
  resolve env s = inr p →
  p ≠ [] →
  (∀ q : path, p `prefix_of` q → fs env mc !! q = None) →
  Forall (λ q, is_file (fs env mc !! q) = false) (prefixes p) →
  let text := (safe_dump env config).1 in
  let m1 := Machine env (heap env mc)
              (<[p ++ ["config"] := File text]>
                 (foldr mkdir_missing (fs env mc) (prefixes p)))
              (trace env mc ++ [EvMakedirs env p; EvWrite env (p ++ ["config"]) text]) in
  existing_directory (fs env m1) p
  ∧ fs env m1 !! (p ++ ["config"]) = Some (File text)
  ∧ (∀ (q : path) x, fs env mc !! q = Some x → fs env m1 !! q = Some x)
  ∧ setup env m0
    = (m1, match (safe_dump env config).2 with
           | Some e => inl e
           | None => inr (config, s)
           end).
Proof.
  intros Hload Hout Hres Hne Hfree Hnofile text m1.
  assert (Hp : fs env mc !! p = None) by by apply Hfree.
  pose proof (Hfree (p ++ ["config"]) (prefix_app_r p p ["config"] (reflexivity p)))
    as Hchild.
  assert (Hcne : p ++ ["config"] ≠ []) by by destruct p.
  split_and!.
  - unfold existing_directory. apply Forall_forall. intros q Hq. subst m1. simpl.
    rewrite Forall_forall in Hnofile. specialize (Hnofile q Hq).
    rewrite lookup_insert_ne.
    + rewrite lookup_foldr_mkdir_missing.
      destruct (fs env mc !! q) as [[|c]|]; [done|done|]. by rewrite decide_True.
    + intros <-. by apply child_not_in_prefixes in Hq.
  - subst m1. simpl. apply lookup_insert_eq.
  - intros q x Hq. subst m1. simpl.
    rewrite lookup_insert_ne.
    2:{ intros <-. rewrite Hfree in Hq; [done|]. by apply prefix_app_r. }
    by rewrite lookup_foldr_mkdir_missing, Hq.
  - unfold setup. rewrite !bind_run, Hload, bind_run.
    unfold build_output_directory. rewrite bind_run. unfold getitem. rewrite Hout. simpl.
    rewrite bind_run. unfold fspath. rewrite Hres. simpl.
    rewrite bind_run. unfold isdir at 1. rewrite node_at_nonroot, Hp by done.
    rewrite bind_run. simpl. rewrite bind_run. unfold makedirs at 1. simpl.
    rewrite node_at_nonroot, Hp by done.
    assert (Hex : existsb (λ q, is_file (fs env mc !! q)) (prefixes p) = false).
    { apply not_true_is_false. intros Hex.
      apply existsb_exists in Hex as (q & Hin & Hq). apply list_elem_of_In in Hin.
      rewrite Forall_forall in Hnofile. specialize (Hnofile q Hin). congruence. }
    rewrite Hex. rewrite bind_run. unfold dump_to at 1. simpl.
    rewrite (node_at_nonroot _ (p ++ ["config"])) by done.
    rewrite lookup_foldr_mkdir_missing, Hchild.
    rewrite decide_False by apply child_not_in_prefixes.
    unfold parent. rewrite removelast_last, node_at_nonroot by done.
    rewrite lookup_foldr_mkdir_missing, Hp.
    rewrite decide_True by by apply self_in_prefixes.
    rewrite <- !app_assoc. simpl. fold text.
    by destruct (safe_dump env config).2.
Qed.

(** What the file operations of [main] preserve. *)

Lemma preserves_ret {A} (Q : path → Prop) (a : A) : preserves env Q (mret a).
Proof. by intros m q x _ Hq. Qed.

Lemma preserves_throw {A} (Q : path → Prop) (e : exn) :
  preserves env Q (throw e : M machine A).
Proof. by intros m q x _ Hq. Qed.

Lemma preserves_bind {A B} (Q : path → Prop) (c : M machine A) (k : A → M machine B) :
  preserves env Q c →
  (∀ a m m', c m = (m', inr a) → preserves env Q (k a)) →
  preserves env Q (c ≫= k).
Proof.
  intros Hc Hk m q x HQ Hq. rewrite bind_run.
  specialize (Hc m q x HQ Hq).
  destruct (c m) as [m1 [e|a]] eqn:Hrun; simpl in *; [done|].
  by apply (Hk a m m1 Hrun).
Qed.

Lemma preserves_rmtree (s : string) (p : path) :
  preserves env (λ q, ¬ p `prefix_of` q) (rmtree env s p).
Proof.
  intros m q x HQ Hq. unfold rmtree. simpl.
  destruct (node_at (fs env m) p) as [[|c]|]; simpl; try done.
  assert (Hout : without_tree p (fs env m) !! q = Some x)
    by by rewrite lookup_without_tree, decide_False.
  assert (Hemp : emptied p (fs env m) !! q = Some x).
  { unfold emptied. destruct p as [|n p'] eqn:Hp; [done|].
    rewrite lookup_insert_ne; [done|]. intros <-. by apply HQ. }
  destruct (rmdir_error s); [done|]. by destruct p.
Qed.

Lemma preserves_makedirs (Q : path → Prop) (p : path) :
  preserves env Q (makedirs env p).
Proof.
  intros m q x _ Hq. unfold makedirs. simpl.
  destruct (node_at (fs env m) p) as [[|c]|]; simpl; try done.
  destruct (existsb _ _); simpl; [done|].
  by rewrite lookup_foldr_mkdir_missing, Hq.
Qed.

Lemma preserves_dump_to (p : path) (config : dict) :
  preserves env (λ q, q ≠ p) (dump_to env p config).
Proof.
  intros m q x HQ Hq. unfold dump_to.
  destruct (node_at (fs env m) p) as [[|c]|];
    destruct (node_at (fs env m) (parent p)) as [[|c']|]; simpl; try done;
    by rewrite lookup_insert_ne.
Qed.

(** Until the helpers take over, [main] changes nothing outside the
    output directory: whether it goes on or stops with an exception, every
    entry that is neither the [output] path nor below it is left in
    place, unchanged. *)
Theorem setup_keeps_outside (m0 mc : machine) (config : dict) s p q x :
  load_config env m0 = (mc, inr config) →
  config !! "output" = Some (VStr s) →
  resolve env s = inr p →
  ¬ p `prefix_of` q →
  fs env mc !! q = Some x →
  fs env (setup env m0).1 !! q = Some x
  ∧ (∀ e, (setup env m0).2 = inl e → main env m0 = ((setup env m0).1, inl e)).
Proof.
  intros Hload Hout Hres Hq Hx. split.
  - unfold setup. rewrite !bind_run, Hload, bind_run.
    assert (Hkeep : preserves env (λ q, ¬ p `prefix_of` q)
                      (build_output_directory env config)).
    { unfold build_output_directory.
      apply preserves_bind; [unfold getitem; rewrite Hout; apply preserves_ret|].
      intros v m m' Hv. unfold getitem in Hv. rewrite Hout in Hv.
      injection Hv as _ <-.
      apply preserves_bind;
        [unfold fspath; rewrite Hres; apply preserves_ret|].
      intros sp m1 m1' Hsp. unfold fspath in Hsp. rewrite Hres in Hsp.
      injection Hsp as _ <-. simpl.
      apply preserves_bind; [by intros ? ? ? _ ?|]. intros is_dir _ _ _.
      apply preserves_bind;
        [destruct is_dir; [apply preserves_rmtree|apply preserves_ret]|].
      intros _ _ _ _. apply preserves_bind; [apply preserves_makedirs|].
      intros _ _ _ _. apply preserves_bind; [|intros; apply preserves_ret].
      intros m2 q' x' Hq' Hx'. apply preserves_dump_to; [|done].
      intros ->. apply Hq'. by apply prefix_app_r. }
    specialize (Hkeep mc q x Hq Hx).
    by destruct (build_output_directory env config mc) as [m1 [e|s']].
  - intros e He. unfold main. rewrite bind_run.
    by destruct (setup env m0) as [m1 [e'|cs]]; simpl in *; simplify_eq.
Qed.

(** What each block of a run that goes through has called, and with
    what. *)

Lemma load_config_inv (m0 mc : machine) (config : dict) :
  load_config env m0 = (mc, inr config) →
  ∃ st file,
    parse_args env (heap env m0, fs env m0) = (st, inr file)
    ∧ parse_config_file env file st = ((heap env mc, fs env mc), inr config)
    ∧ trace env mc = trace env m0 ++ [EvParseArgs env; EvParseConfigFile env file].
Proof.
  unfold load_config. rewrite bind_run. unfold call at 1.
  destruct (parse_args env (heap env m0, fs env m0)) as [[h f] [e|file]]; [done|].
  unfold call. simpl.
  destruct (parse_config_file env file (h, f)) as [[h' f'] [e|c]] eqn:Hfile; [done|].
  intros [= <- <-]. exists (h, f), file. simpl.
  split_and!; [done|done|by rewrite <- app_assoc].
Qed.

Lemma build_problem_inv (config : dict) s (m m' : machine) pb :
  build_problem env config s m = (m', inr pb) →
  ∃ st1 c1 oc st2 oc' zc st3 zc',
    parse_parameters env config (heap env m, fs env m)
    = (st1, inr (c1, pb_parameters env pb))
    ∧ c1 !! "objective" = Some oc
    ∧ read_objective env oc (pb_parameters env pb) s st1
      = (st2, inr (oc', pb_objective env pb))
    ∧ <["objective" := oc']> c1 !! "optimiser" = Some zc
    ∧ read_optimiser env zc (pb_objective env pb) st2
      = (st3, inr (zc', pb_optimiser env pb))
    ∧ parse_stop_criteria env (<["optimiser" := zc']> (<["objective" := oc']> c1)) st3
      = ((heap env m', fs env m'), inr (pb_config env pb, pb_stop env pb))
    ∧ trace env m'
      = trace env m
          ++ [EvParseParameters env config;
              EvReadObjective env oc s;
              EvReadOptimiser env zc;
              EvParseStopCriteria env
                (<["optimiser" := zc']> (<["objective" := oc']> c1))].
Proof.
  unfold build_problem. rewrite bind_run. unfold call at 1.
  destruct (parse_parameters env config (heap env m, fs env m))
    as [[h1 f1] [e|[c1 ps]]] eqn:Hpp; [done|]. simpl.
  rewrite bind_run. unfold getitem at 1.
  destruct (c1 !! "objective") as [oc|] eqn:Hoc; [|done]. simpl.
  rewrite bind_run. unfold call at 1. simpl.
  destruct (read_objective env oc ps s (h1, f1)) as [[h2 f2] [e|[oc' obj]]] eqn:Hro;
    [done|]. simpl.
  rewrite bind_run. unfold getitem at 1.
  destruct (<["objective":=oc']> c1 !! "optimiser") as [zc|] eqn:Hzc; [|done]. simpl.
  rewrite bind_run. unfold call at 1. simpl.
  destruct (read_optimiser env zc obj (h2, f2)) as [[h3 f3] [e|[zc' opt]]] eqn:Hrz;
    [done|]. simpl.
  rewrite bind_run. unfold call at 1. simpl.
  destruct (parse_stop_criteria env _ (h3, f3)) as [[h4 f4] [e|[c4 stop]]] eqn:Hstop;
    [done|]. simpl.
  intros [= <- <-]. exists (h1, f1), c1, oc, (h2, f2), oc', zc, (h3, f3), zc'. simpl.
  split_and!; try done. by rewrite <- !app_assoc.
Qed.

Lemma run_optimisation_inv (pb : problem env) s (m m' : machine) best :
  run_optimisation env pb s m = (m', inr best) →
  ∃ n quiet history,
    pb_config env pb !! "iters" = Some n
    ∧ pb_config env pb !! "quiet" = Some quiet
    ∧ optimise env (pb_optimiser env pb) n (pb_parameters env pb) s
        (negb (truthy quiet)) (pb_stop env pb) (heap env m, fs env m)
      = ((heap env m', fs env m'), inr (history, best))
    ∧ trace env m' = trace env m ++ [EvOptimise env n s (negb (truthy quiet))].
Proof.
  unfold run_optimisation. rewrite bind_run. unfold getitem at 1.
  destruct (pb_config env pb !! "iters") as [n|]; [|done]. simpl.
  rewrite bind_run. unfold getitem at 1.
  destruct (pb_config env pb !! "quiet") as [quiet|]; [|done]. simpl.
  rewrite bind_run. unfold call at 1.
  destruct (optimise env _ _ _ _ _ _ _) as [[h f] [e|[history best']]] eqn:Hopt;
    [done|]. simpl.
  intros [= <- <-]. by exists n, quiet, history.
Qed.

(** The stages of [main] are checked one after the other, not up front:
    a configuration without [iters] (or, with [iters], without [quiet])
    stops [main] with a [KeyError] only once the problem has been built,
    so after the output directory was replaced and every reader was
    called; [optimise] is never called. *)
Theorem optimisation_needs_iters_and_quiet (m0 m1 m2 : machine) config s pb :
  setup env m0 = (m1, inr (config, s)) →
  build_problem env config s m1 = (m2, inr pb) →
  (pb_config env pb !! "iters" = None →
   main env m0 = (m2, inl (KeyError "iters")))
  ∧ (is_Some (pb_config env pb !! "iters") →
     pb_config env pb !! "quiet" = None →
     main env m0 = (m2, inl (KeyError "quiet"))).
Proof.
  intros Hsetup Hbuild.
  assert (Hmain : main env m0
                  = (run_optimisation env pb s ≫= rerun_best_case env pb) m2).
  { unfold main. rewrite bind_run, Hsetup. unfold solve. simpl.
    by rewrite bind_run, Hbuild. }
  rewrite Hmain, bind_run. unfold run_optimisation. rewrite bind_run. split.
  - intros Hiters. unfold getitem. by rewrite Hiters.
  - intros [n Hiters] Hquiet. unfold getitem at 1. rewrite Hiters. simpl.
    rewrite bind_run. unfold getitem. by rewrite Hquiet.
Qed.

(** A configuration that has no [objective] key once the parameters are
    parsed stops [main] with [KeyError('objective')] before any reader of
    the objective or optimiser is called; the output directory has been
    replaced by then. *)
Theorem problem_needs_objective (m0 m1 : machine) config s st c1 ps :
  setup env m0 = (m1, inr (config, s)) →
  parse_parameters env config (heap env m1, fs env m1) = (st, inr (c1, ps)) →
  c1 !! "objective" = None →
  main env m0
  = (Machine env st.1 st.2 (trace env m1 ++ [EvParseParameters env config]),
     inl (KeyError "objective")).
Proof.
  intros Hsetup Hparse Hobj. unfold main. rewrite bind_run, Hsetup.
  unfold solve. simpl. rewrite bind_run. unfold build_problem.
  rewrite bind_run. unfold call at 1. rewrite Hparse. simpl.
  rewrite bind_run. unfold getitem at 1. by rewrite Hobj.
Qed.

(** A run of [main] that ends without an exception has done, in this
    order and each once: read the arguments and the configuration file,
    removed the output directory exactly if it was one, created it,
    written the configuration, parsed the parameters, read the objective
    and the optimiser from their sections of the configuration, parsed
    the stop criteria and optimised; then, exactly if the configuration
    has no [skip_last_run] key, normalised the result of the optimisation
    and evaluated the objective there.  The readers and the optimiser get
    the [output] string of the configuration, and the optimiser gets the
    [iters] entry and is verbose exactly when the [quiet] entry is
    falsy. *)
Theorem completed_run_trace (m0 m' : machine) :
  main env m0 = (m', inr tt) →
  ∃ st file mc config s p m1 st1 c1 oc st2 oc' zc st3 zc' m2 pb n quiet history
    m3 best,
    parse_args env (heap env m0, fs env m0) = (st, inr file)
    ∧ parse_config_file env file st = ((heap env mc, fs env mc), inr config)
    ∧ config !! "output" = Some (VStr s)
    ∧ resolve env s = inr p
    ∧ setup env m0 = (m1, inr (config, s))
    ∧ parse_parameters env config (heap env m1, fs env m1)
      = (st1, inr (c1, pb_parameters env pb))
    ∧ c1 !! "objective" = Some oc
    ∧ read_objective env oc (pb_parameters env pb) s st1
      = (st2, inr (oc', pb_objective env pb))
    ∧ <["objective" := oc']> c1 !! "optimiser" = Some zc
    ∧ read_optimiser env zc (pb_objective env pb) st2
      = (st3, inr (zc', pb_optimiser env pb))
    ∧ parse_stop_criteria env (<["optimiser" := zc']> (<["objective" := oc']> c1)) st3
      = ((heap env m2, fs env m2), inr (pb_config env pb, pb_stop env pb))
    ∧ pb_config env pb !! "iters" = Some n
    ∧ pb_config env pb !! "quiet" = Some quiet
    ∧ optimise env (pb_optimiser env pb) n (pb_parameters env pb) s
        (negb (truthy quiet)) (pb_stop env pb) (heap env m2, fs env m2)
      = ((heap env m3, fs env m3), inr (history, best))
    ∧ trace env m'
      = trace env m0
          ++ [EvParseArgs env; EvParseConfigFile env file]
          ++ (if isdir (fs env mc) p then [EvRmtree env p] else [])
          ++ [EvMakedirs env p;
              EvWrite env (p ++ ["config"]) (safe_dump env config).1;
              EvParseParameters env config;
              EvReadObjective env oc s;
              EvReadOptimiser env zc;
              EvParseStopCriteria env
                (<["optimiser" := zc']> (<["objective" := oc']> c1));
              EvOptimise env n s (negb (truthy quiet))]
          ++ match pb_config env pb !! "skip_last_run" with
             | Some _ => []
             | None =>
                 match normalise env (pb_parameters env pb) best
                         (heap env m3, fs env m3) with
                 | (_, inr u) => [EvNormalise env best; EvObjective env u]
                 | (_, inl _) => []
                 end
             end.
Proof.
  unfold main. rewrite bind_run.
  destruct (setup env m0) as [m1 [e|[config s]]] eqn:Hsetup; [done|]. simpl.
  pose proof Hsetup as Hsetup'.
  unfold setup in Hsetup. rewrite bind_run in Hsetup.
  destruct (load_config env m0) as [mc [e|config']] eqn:Hload; [done|].
  rewrite bind_run in Hsetup.
  destruct (build_output_directory env config' mc) as [m1' [e|s']] eqn:Hdir; [done|].
  injection Hsetup as -> -> ->.
  apply load_config_inv in Hload as (st & file & Hargs & Hfile & Hmc).
  apply build_output_directory_inv in Hdir
    as (p & Hout & Hres & _ & _ & _ & Hm1). simpl in Hm1.
  unfold solve. rewrite bind_run.
  destruct (build_problem env config s m1) as [m2 [e|pb]] eqn:Hbuild; [done|].
  apply build_problem_inv in Hbuild
    as (st1 & c1 & oc & st2 & oc' & zc & st3 & zc' & Hpp & Hoc & Hro & Hzc & Hrz
        & Hstop & Hm2).
  rewrite bind_run.
  destruct (run_optimisation env pb s m2) as [m3 [e|best]] eqn:Hrun; [done|].
  apply run_optimisation_inv in Hrun as (n & quiet & history & Hn & Hq & Hopt & Hm3).
  rewrite rerun_best_case_run. intros Hre.
  assert (Hm3' : trace env m3
                 = trace env m0
                     ++ [EvParseArgs env; EvParseConfigFile env file]
                     ++ (if isdir (fs env mc) p then [EvRmtree env p] else [])
                     ++ [EvMakedirs env p;
                         EvWrite env (p ++ ["config"]) (safe_dump env config).1;
                         EvParseParameters env config;
                         EvReadObjective env oc s;
                         EvReadOptimiser env zc;
                         EvParseStopCriteria env
                           (<["optimiser" := zc']> (<["objective" := oc']> c1));
                         EvOptimise env n s (negb (truthy quiet))]).
  { rewrite Hm3, Hm2, Hm1. simpl. rewrite Hmc. by rewrite <- !app_assoc. }
  exists st, file, mc, config, s, p, m1, st1, c1, oc, st2, oc', zc, st3, zc', m2, pb,
    n, quiet, history, m3, best.
  split_and!; try done.
  destruct (pb_config env pb !! "skip_last_run").
  { injection Hre as <-. rewrite Hm3'. simpl. by rewrite ?app_nil_r. }
  destruct (normalise env _ best _) as [stn [e|u]]; [done|].
  destruct (call_objective env _ u stn) as [st' r].
  injection Hre as <- _. simpl. rewrite Hm3'. by rewrite <- ?app_assoc.
Qed.

Lemma no_objective_calls (t : list event) :
  Forall (λ ev, is_objective_call env ev = false) t → objective_calls env t = [].
Proof.
  induction 1 as [|ev t Hev _ IH]; [done|].
  destruct ev; try exact IH. discriminate Hev.
Qed.

Lemma objective_calls_app (t1 t2 : list event) :
  objective_calls env (t1 ++ t2) = objective_calls env t1 ++ objective_calls env t2.
Proof. apply omap_app. Qed.

Lemma emits_build_problem (config : dict) s :
  emits env (λ ev, is_objective_call env ev = false) (build_problem env config s).
Proof.
  unfold build_problem.
  repeat first
    [ apply emits_ret
    | apply emits_getitem
    | by apply emits_call
    | apply emits_bind; [|intros ?] ].
Qed.

Lemma emits_run_optimisation (pb : problem env) s :
  emits env (λ ev, is_objective_call env ev = false) (run_optimisation env pb s).
Proof.
  unfold run_optimisation.
  repeat first
    [ apply emits_ret
    | apply emits_getitem
    | by apply emits_call
    | apply emits_bind; [|intros ?] ].
Qed.

(** In any run, however it ends, [main] itself calls the objective at
    most once.  When it does, the configuration has no [skip_last_run]
    key, the call is the last thing [main] does, and it comes right after
    the optimisation and the normalisation of the best parameters the
    optimisation returned: the objective is called on the normalised
    vector. *)
Theorem objective_called_at_most_once (m0 : machine) :
  ∃ t, trace env (main env m0).1 = trace env m0 ++ t
       ∧ (objective_calls env t = []
          ∨ ∃ t' config s m1 m2 pb m3 n quiet history best st u,
              setup env m0 = (m1, inr (config, s))
              ∧ build_problem env config s m1 = (m2, inr pb)
              ∧ pb_config env pb !! "iters" = Some n
              ∧ pb_config env pb !! "quiet" = Some quiet
              ∧ optimise env (pb_optimiser env pb) n (pb_parameters env pb) s
                  (negb (truthy quiet)) (pb_stop env pb) (heap env m2, fs env m2)
                = ((heap env m3, fs env m3), inr (history, best))
              ∧ pb_config env pb !! "skip_last_run" = None
              ∧ normalise env (pb_parameters env pb) best (heap env m3, fs env m3)
                = (st, inr u)
              ∧ t = t' ++ [EvOptimise env n s (negb (truthy quiet));
                           EvNormalise env best;
                           EvObjective env u]
              ∧ objective_calls env t' = []
              ∧ objective_calls env t = [u]).
Proof.
  unfold main. rewrite bind_run.
  destruct (emits_setup env m0) as (ts & Hts & Hqs).
  assert (Hns : objective_calls env ts = []).
  { apply no_objective_calls. eapply Forall_impl; [exact Hqs|].
    intros ev. by destruct ev. }
  destruct (setup env m0) as [m1 [e|[config s]]] eqn:Hsetup; simpl in *.
  { exists ts. split; [done|by left]. }
  unfold solve. rewrite bind_run.
  destruct (emits_build_problem config s m1) as (tb & Htb & Hqb).
  apply no_objective_calls in Hqb.
  destruct (build_problem env config s m1) as [m2 [e|pb]] eqn:Hbuild; simpl in *.
  { exists (ts ++ tb). rewrite Htb, Hts, app_assoc. split; [done|left].
    by rewrite objective_calls_app, Hns, Hqb. }
  rewrite bind_run.
  destruct (emits_run_optimisation pb s m2) as (tr & Htr & Hqr).
  apply no_objective_calls in Hqr.
  destruct (run_optimisation env pb s m2) as [m3 [e|best]] eqn:Hrun; simpl in *.
  { exists (ts ++ tb ++ tr). rewrite Htr, Htb, Hts, <- !app_assoc.
    split; [done|left]. by rewrite !objective_calls_app, Hns, Hqb, Hqr. }
  apply run_optimisation_inv in Hrun
    as (n & quiet & history & Hn & Hquiet & Hopt & Hm3).
  assert (Hprefix : trace env m3
                    = trace env m0
                        ++ (ts ++ tb) ++ [EvOptimise env n s (negb (truthy quiet))]).
  { rewrite Hm3, Htb, Hts. by rewrite <- !app_assoc. }
  assert (Hnone : objective_calls env (ts ++ tb) = [])
    by by rewrite objective_calls_app, Hns, Hqb.
  rewrite rerun_best_case_run.
  destruct (pb_config env pb !! "skip_last_run") eqn:Hskip.
  { simpl. eexists. split; [exact Hprefix|left].
    by rewrite objective_calls_app, Hnone. }
  destruct (normalise env _ best _) as [st [e|u]] eqn:Hnorm; simpl.
  { exists ((ts ++ tb) ++ [EvOptimise env n s (negb (truthy quiet));
                           EvNormalise env best]).
    rewrite Hprefix, <- !app_assoc. split; [done|left].
    by rewrite !objective_calls_app, Hns, Hqb. }
  destruct (call_objective env _ u st) as [st' r]. simpl.
  exists ((ts ++ tb) ++ [EvOptimise env n s (negb (truthy quiet));
                         EvNormalise env best; EvObjective env u]).
  rewrite Hprefix, <- !app_assoc. split; [done|right].
  exists (ts ++ tb), config, s, m1, m2, pb, m3, n, quiet, history, best, st, u.
  rewrite <- !app_assoc. split_and!; try done.
  by rewrite !objective_calls_app, Hns, Hqb.
Qed.

End Edges.

(** [main_missing_output] on the configuration without [output]. *)
Lemma main_missing_output_witness :
  no_output_config !! "output" = None
  ∧ (main (sample_env no_output_config) (start no_output_config)).2
    = inl (KeyError "output")
  ∧ fs _ (main (sample_env no_output_config) (start no_output_config)).1 = used_fs.
Proof.
  pose proof (main_missing_output (sample_env no_output_config)
                (start no_output_config)
                (load_config (sample_env no_output_config) (start no_output_config)).1
                no_output_config eq_refl eq_refl) as Hmain.
  split_and!; [reflexivity|by rewrite Hmain|by rewrite Hmain].
Defined.

(** [main_output_is_file] on an output path that is a file. *)
Lemma main_output_is_file_witness :
  used_fs !! ["other"] = Some (File "keep")
  ∧ (main (sample_env file_output_config) (start file_output_config)).2
    = inl (Raise "FileExistsError" "File exists")
  ∧ fs _ (main (sample_env file_output_config) (start file_output_config)).1
    = used_fs.
Proof.
  pose proof (main_output_is_file (sample_env file_output_config)
                (start file_output_config)
                (load_config (sample_env file_output_config)
                   (start file_output_config)).1
                file_output_config "other" ["other"] "keep") as Hmain.
  split_and!; [reflexivity| |]; rewrite Hmain; try reflexivity; discriminate.
Defined.

(** [fresh_output_directory_created] on an output path not yet there. *)
Lemma fresh_output_directory_created_witness :
  used_fs !! ["new"] = None
  ∧ fs _ (setup (sample_env fresh_output_config) (start fresh_output_config)).1
      !! ["new"] = Some Dir
  ∧ fs _ (setup (sample_env fresh_output_config) (start fresh_output_config)).1
      !! ["out"; "0"; "case.out"] = Some (File "1.0").
Proof.
  destruct (fresh_output_directory_created (sample_env fresh_output_config)
              (start fresh_output_config)
              (load_config (sample_env fresh_output_config)
                 (start fresh_output_config)).1
              fresh_output_config "new" ["new"])
    as (Hdir & _ & Hkept & Hsetup).
  - reflexivity.
  - reflexivity.
  - reflexivity.
  - discriminate.
  - intros q [k ->]. change (used_fs !! ("new" :: k) = None).
    unfold used_fs. rewrite !lookup_insert_ne by done.
    by apply lookup_singleton_ne.
  - repeat constructor.
  - rewrite Hsetup. split_and!; [reflexivity| |].
    + apply (Forall_inv Hdir).
    + apply Hkept. reflexivity.
Defined.

(** [setup_keeps_outside] on the file next to the output directory. *)
Lemma setup_keeps_outside_witness :
  used_fs !! ["other"] = Some (File "keep")
  ∧ fs _ (setup (sample_env sample_config) (start sample_config)).1 !! ["other"]
    = Some (File "keep").
Proof.
  split; [reflexivity|].
  refine (proj1 (setup_keeps_outside (sample_env sample_config) (start sample_config)
                   (load_config (sample_env sample_config) (start sample_config)).1
                   sample_config "out" ["out"] ["other"] (File "keep")
                   eq_refl eq_refl eq_refl _ eq_refl)).
  intros [k Hk]. discriminate.
Defined.

(** [optimisation_needs_iters_and_quiet] on the configuration without
    [iters]: the output directory has been replaced by then. *)
Lemma optimisation_needs_iters_and_quiet_witness :
  no_iters_config !! "iters" = None
  ∧ (main (sample_env no_iters_config) (start no_iters_config)).2
    = inl (KeyError "iters")
  ∧ fs _ (main (sample_env no_iters_config) (start no_iters_config)).1
      !! ["out"; "0"; "case.out"] = None.
Proof.
  destruct (optimisation_needs_iters_and_quiet (sample_env no_iters_config)
              (start no_iters_config)
              (setup (sample_env no_iters_config) (start no_iters_config)).1
              (build_problem (sample_env no_iters_config) no_iters_config "out"
                 (setup (sample_env no_iters_config) (start no_iters_config)).1).1
              no_iters_config "out"
              (Problem (sample_env no_iters_config) no_iters_config () () () ()))
    as [Hiters _].
  - vm_compute. reflexivity.
  - vm_compute. reflexivity.
  - rewrite (Hiters eq_refl). split_and!; [reflexivity|reflexivity|].
    vm_compute. reflexivity.
Defined.

(** [problem_needs_objective] on the configuration without [objective]. *)
Lemma problem_needs_objective_witness :
  no_objective_config !! "objective" = None
  ∧ (main (sample_env no_objective_config) (start no_objective_config)).2
    = inl (KeyError "objective").
Proof.
  split; [reflexivity|].
  rewrite (problem_needs_objective (sample_env no_objective_config)
             (start no_objective_config)
             (setup (sample_env no_objective_config) (start no_objective_config)).1
             no_objective_config "out"
             ([], fs _ (setup (sample_env no_objective_config)
                          (start no_objective_config)).1)
             no_objective_config ()).
  - reflexivity.
  - vm_compute. reflexivity.
  - vm_compute. reflexivity.
  - reflexivity.
Defined.


(** [completed_run_trace] on the sample run. *)
Lemma completed_run_trace_witness :
  (main (sample_env sample_config) (start sample_config)).2 = inr ()
  ∧ ∃ t (config : Py.dict) (pb : problem (sample_env sample_config))
      n s quiet rerun,
      pb_config _ pb !! "iters" = Some n
      ∧ pb_config _ pb !! "quiet" = Some quiet
      ∧ config !! "output" = Some (VStr s)
      ∧ trace _ (main (sample_env sample_config) (start sample_config)).1
        = t ++ EvOptimise (sample_env sample_config) n s (negb (truthy quiet)) :: rerun.
Proof.
  split; [vm_compute; reflexivity|].
  destruct (completed_run_trace (sample_env sample_config) (start sample_config)
              (main (sample_env sample_config) (start sample_config)).1)
    as (st & file & mc & config & s & p & m1 & st1 & c1 & oc & st2 & oc' & zc
        & st3 & zc' & m2 & pb & n & quiet & history & m3 & best
        & _ & _ & Hout & _ & _ & _ & _ & _ & _ & _ & _ & Hn & Hq & _ & Htrace).
  - vm_compute. reflexivity.
  - set (E := sample_env sample_config) in *.
    exists (trace E (start sample_config)
              ++ [EvParseArgs E; EvParseConfigFile E file]
              ++ (if isdir (fs E mc) p then [EvRmtree E p] else [])
              ++ [EvMakedirs E p;
                  EvWrite E (p ++ ["config"]) (safe_dump E config).1;
                  EvParseParameters E config;
                  EvReadObjective E oc s;
                  EvReadOptimiser E zc;
                  EvParseStopCriteria E
                    (<["optimiser" := zc']> (<["objective" := oc']> c1))]),
      config, pb, n, s, quiet,
      (match pb_config E pb !! "skip_last_run" with
       | Some _ => []
       | None =>
           match normalise E (pb_parameters E pb) best (heap E m3, fs E m3) with
           | (_, inr u) => [EvNormalise E best; EvObjective E u]
           | (_, inl _) => []
           end
       end).
    split_and!; [exact Hn|exact Hq|exact Hout|].
    rewrite Htrace, <- !app_assoc. reflexivity.
Defined.

End DriverFacts.
